(** * The task-scheduling core of UnSHACLed

    A shallow embedding of [model.ts] (class [Model]), [taskInstruction.ts]
    (class [TaskInstruction]) and the task classes of
    [persistence/fileDAO.ts], with the properties their specification
    states about them.

    JavaScript objects are mutable and shared by reference.  Task
    instructions point at each other (dependencies one way, inverted
    dependencies the other way) and at the data they captured, so they live
    in a heap and are named by their address; methods are computations in a
    state monad whose exceptions leave the state as it was when they were
    thrown. *)

From Stdlib Require Import Ascii.
From stdpp Require Import base option list gmap sets strings pretty relations.

Set Default Proof Using "Type".

(** ** Computations that mutate a state and may throw *)

Inductive Exception : Type :=
  | Error (message : string)
  | TypeError (message : string).

Inductive Outcome (A : Type) : Type :=
  | Returned (a : A)
  | Thrown (e : Exception).
Arguments Returned {A} a.
Arguments Thrown {A} e.

Definition M (S A : Type) : Type := S → Outcome A * S.

Global Instance M_ret {S} : MRet (M S) := λ A a s, (Returned a, s).
Global Instance M_bind {S} : MBind (M S) := λ A B f m s,
  match m s with
  | (Returned a, s') => f a s'
  | (Thrown e, s') => (Thrown e, s')
  end.

Definition throw {S A} (e : Exception) : M S A := λ s, (Thrown e, s).
Definition gets {S A} (f : S → A) : M S A := λ s, (Returned (f s), s).
Definition modify {S} (f : S → S) : M S unit := λ s, (Returned tt, f s).

(** [Array.prototype.forEach] and the [forEach] of the collections: the
    callback runs on every element in turn; an exception ends the loop. *)
Fixpoint forEach {S A} (l : list A) (callback : A → M S unit) : M S unit :=
  match l with
  | [] => mret tt
  | x :: l' => callback x ;; forEach l' callback
  end.

Definition returns {S A} (m : M S A) (s : S) : Prop :=
  ∃ a, (m s).1 = Returned a.

(** ** typescript-collections

    [Collections.Dictionary] keeps its entries in a table indexed by the
    string form of the key, and stores the key next to the value.  The
    string form of an object is what its [toString] method returns (the
    library puts a constant prefix in front, which changes no lookup and is
    left out).  [Collections.Set] is a dictionary from an element to
    itself. *)

Abbreviation Dictionary K V := (gmap string (K * V)).
Abbreviation CSet K := (gmap string (K * K)).

Module Dictionary.
Section dictionary.
Context {K V : Type} (toStr : K → string).

Definition getValue (d : Dictionary K V) (key : K) : option V :=
  snd <$> d !! toStr key.

Definition containsKey (d : Dictionary K V) (key : K) : bool :=
  bool_decide (is_Some (getValue d key)).

Definition setValue (key : K) (value : V) (d : Dictionary K V)
  : Dictionary K V :=
  <[toStr key := (key, value)]> d.

Definition remove (key : K) (d : Dictionary K V) : Dictionary K V :=
  delete (toStr key) d.

(** [nElements <= 0], where [nElements] counts the entries of the table. *)
Definition isEmpty (d : Dictionary K V) : bool :=
  bool_decide (size d ≤ 0).

(** The keys stored in the table. *)
Definition keys (d : Dictionary K V) : list K :=
  (fst ∘ snd) <$> map_to_list d.
End dictionary.
End Dictionary.

Module CSet.
Section set.
Context {K : Type} (toStr : K → string).

Definition contains (s : CSet K) (element : K) : bool :=
  Dictionary.containsKey toStr s element.

Definition add (element : K) (s : CSet K) : CSet K :=
  if contains s element then s
  else Dictionary.setValue toStr element element s.

Definition isEmpty (s : CSet K) : bool := Dictionary.isEmpty s.
End set.
End CSet.

(** Addresses of objects in the heap. *)
Abbreviation loc := nat.

(** ** requests/RequestModule.tsx *)

Module RequestModule.

(** [s.split(separator)], for a separator of one character: the pieces of
    [s] between the occurrences of the separator. *)
Fixpoint split (separator : Ascii.ascii) (s : string) : list string :=
  match s with
  | EmptyString => [EmptyString]
  | String c s' =>
      if decide (c = separator) then EmptyString :: split separator s'
      else
        match split separator s' with
        | [] => [String c EmptyString]
        | piece :: pieces => String c piece :: pieces
        end
  end.

(** An entry of the array [processRepos] returns; a field that is
    [undefined] is [None]. *)
Record DropdownOption : Type := {
  text : option string;
  value : option string;
}.

(** [RequestModule.processRepos(repoArray)], on an array of strings. *)
Definition processRepos (repoArray : list string) : list DropdownOption :=
  foldl
    (λ result repo,
       result ++ [ {| text := split "/"%char repo !! 1;
                      value := split "/"%char repo !! 1 |} ])
    [] repoArray.

(** Whether the character occurs in the string. *)
Fixpoint occurs (c : Ascii.ascii) (s : string) : bool :=
  match s with
  | EmptyString => false
  | String c' s' => if decide (c' = c) then true else occurs c s'
  end.

End RequestModule.

Section entities.

(** [ModelComponent] (modelTaskMetadata.ts) names a component of the model.
    Its declaration is not part of the sources at hand; the scheduler only
    compares component keys and puts them in sets, so the type is a
    parameter with decidable equality.  Sets of components are [gset]s:
    distinct components have distinct string forms. *)
Context {ModelComponent : Type} `{Countable ModelComponent}.

(** The objects stored as component values, opaque to the scheduler. *)
Context {Obj : Type}.

(** A value of TypeScript type [any]. *)
Inductive any : Type :=
  | undefined
  | null
  | object (o : Obj).

(** ** ModelData *)

(** Modelled from the spec: modelData.ts is not part of the sources at
    hand.  The data store maps a component key to at most one value and
    keeps a change buffer, the set of keys written since the buffer was
    last drained; [getComponent] returns the value or [undefined],
    [setComponent] overwrites the value and records the key in the change
    buffer, [drainChangeBuffer] returns the buffer and clears it. *)
Record ModelData : Type := {
  components : gmap ModelComponent any;
  changeBuffer : gset ModelComponent;
}.

Definition new_ModelData : ModelData :=
  {| components := ∅; changeBuffer := ∅ |}.

Definition getComponent (d : ModelData) (component : ModelComponent) : any :=
  default undefined (components d !! component).

Definition setComponent (component : ModelComponent) (value : any)
    (d : ModelData) : ModelData :=
  {| components := <[component := value]> (components d);
     changeBuffer := {[component]} ∪ changeBuffer d |}.

Definition drainChangeBuffer (d : ModelData)
    : gset ModelComponent * ModelData :=
  (changeBuffer d, {| components := components d; changeBuffer := ∅ |}).

(** ** fileDAO.ts: FileModule *)

Record FileModule : Type := {
  type : ModelComponent;
  filename : string;
  file : Obj;
}.

Definition getType (module : FileModule) : ModelComponent := type module.
Definition getFilename (module : FileModule) : string := filename module.
Definition getFile (module : FileModule) : Obj := file module.

(** ** Tasks and their metadata *)

(** Modelled from the spec: modelTaskMetadata.ts is not part of the sources
    at hand.  The metadata of a task is its read set, its write set and its
    priority; the constructor takes each set as a set or as an array and
    the priority is optional, with a neutral default. *)
Record ModelTaskMetadata : Type := {
  readSet : gset ModelComponent;
  writeSet : gset ModelComponent;
  priority : Z;
}.

Definition toSet (s : gset ModelComponent + list ModelComponent)
    : gset ModelComponent :=
  match s with
  | inl set => set
  | inr array => list_to_set array
  end.

Definition new_ModelTaskMetadata
    (readSet writeSet : gset ModelComponent + list ModelComponent)
    (priority : option Z) : ModelTaskMetadata :=
  {| readSet := toSet readSet;
     writeSet := toSet writeSet;
     priority := default 0%Z priority |}.

(** fileDAO.ts: an [IOFacilitator] holds the parsers it was given, filed
    under their label; a parser is an opaque object.  A [FileWrite] records
    one call [io.writeToFile(module, data)]. *)
Record IOFacilitator : Type := {
  modems : gmap ModelComponent Obj;
}.

Record FileWrite : Type := {
  written_by : IOFacilitator;
  written_module : FileModule;
  written_data : any;
}.

(** What the function of a task does when it is run on a [ModelData]: it
    changes the data in place, and may write files. *)
Definition Effect : Type := ModelData → ModelData * list FileWrite.

(** Modelled from the spec: task.ts and taskProcessor.ts are not part of the
    sources at hand.  A task is the function to run and its metadata
    ([OpaqueTask] and [ProcessorTask] take them in this order); [index] is
    the field read by [TaskInstruction.toString], which no constructor
    argument sets.  A field of declared type [ModelTaskMetadata] can hold
    [null] (fileDAO.ts passes it), which is [None] here; an unset [index]
    is [None] as well. *)
Record ModelTask : Type := {
  execute : Effect;
  metadata : option ModelTaskMetadata;
  index : option Z;
}.

Definition OpaqueTask (execute : Effect) (metadata : ModelTaskMetadata)
    : ModelTask :=
  {| execute := execute; metadata := Some metadata; index := None |}.

Definition ProcessorTask (execute : Effect)
    (metadata : option ModelTaskMetadata) : ModelTask :=
  {| execute := execute; metadata := metadata; index := None |}.

Global Instance ModelTask_inhabited : Inhabited ModelTask :=
  populate {| execute := λ d, (d, []); metadata := None; index := None |}.

(** ** taskInstruction.ts *)

(** The fields of a [TaskInstruction].  [data] is a reference to a
    [ModelData] object; the keys of [dependencies] and the elements of
    [invertedDependencies] are references to instructions.  A component
    set stored in [dependencies] is reachable from its entry only, so it is
    kept by value. *)
Record TaskInstruction : Type := {
  task : ModelTask;
  data : loc;
  dependencies : Dictionary loc (gset ModelComponent);
  invertedDependencies : CSet loc;
}.

Global Instance TaskInstruction_inhabited : Inhabited TaskInstruction :=
  populate {| task := inhabitant; data := 0;
              dependencies := ∅; invertedDependencies := ∅ |}.

Global Instance ModelData_inhabited : Inhabited ModelData :=
  populate new_ModelData.

(** The heap: the instructions and the data objects allocated so far, each
    at the position it was allocated at.  Nothing is ever freed.  (An
    address outside the heap does not occur in a JavaScript program: it
    reads as the default object, and writing to it changes nothing.) *)
Record Heap : Type := {
  instructions : list TaskInstruction;
  stores : list ModelData;
}.

Definition empty_heap : Heap := {| instructions := []; stores := [] |}.

Definition with_instructions
    (f : list TaskInstruction → list TaskInstruction) (h : Heap) : Heap :=
  {| instructions := f (instructions h); stores := stores h |}.

Definition with_stores (f : list ModelData → list ModelData) (h : Heap)
    : Heap :=
  {| instructions := instructions h; stores := f (stores h) |}.

(** [new ModelData()] *)
Definition alloc_ModelData (d : ModelData) : M Heap loc := λ h,
  (Returned (length (stores h)), with_stores (λ l, l ++ [d]) h).

(** [d.getComponent(component)] and [d.setComponent(component, value)] on
    the object at address [d]. *)
Definition getComponentOf (d : loc) (component : ModelComponent)
    : M Heap any :=
  gets (λ h, getComponent (stores h !!! d) component).

Definition setComponentOf (d : loc) (component : ModelComponent)
    (value : any) : M Heap unit :=
  modify (with_stores (alter (setComponent component value) d)).

(** [this.task], [this.data], ... *)
Definition field {A} (f : TaskInstruction → A) (this : loc) : M Heap A :=
  gets (λ h, f (instructions h !!! this)).

Definition update (this : loc) (f : TaskInstruction → TaskInstruction)
    : M Heap unit :=
  modify (with_instructions (alter f this)).

(** [`${this.task.index}`]: the index of a task is a whole number, printed
    in decimal, which is how JavaScript prints the whole numbers below
    [1e21]; from there on it prints them in exponent form, which is not
    followed here. *)
Definition showIndex (i : option Z) : string :=
  from_option pretty "undefined" i.

(** [toString()]: the string form under which the collections file an
    instruction. *)
Definition toString (h : Heap) (this : loc) : string :=
  "Instruction " +:+ showIndex (index (task (instructions h !!! this))).

(** [new TaskInstruction(task, data)] *)
Definition new_TaskInstruction (task : ModelTask) (data : loc)
    : M Heap loc := λ h,
  (Returned (length (instructions h)),
   with_instructions
     (λ l, l ++ [ {| task := task; data := data;
                     dependencies := ∅; invertedDependencies := ∅ |} ]) h).

(** [TaskInstruction.getPriority(instruction)] reads
    [instruction.task.metadata.priority]. *)
Definition getPriority (instruction : loc) : M Heap Z :=
  t ← field task instruction;
  match metadata t with
  | None => throw (TypeError "Cannot read property 'priority' of null")
  | Some md => mret (priority md)
  end.

(** [this.isEligibleForExecution] *)
Definition isEligibleForExecution (this : loc) : M Heap bool :=
  deps ← field dependencies this;
  mret (Dictionary.isEmpty deps).

Definition set_dependencies (d : Dictionary loc (gset ModelComponent))
    (i : TaskInstruction) : TaskInstruction :=
  {| task := task i; data := data i;
     dependencies := d; invertedDependencies := invertedDependencies i |}.

Definition set_invertedDependencies (s : CSet loc) (i : TaskInstruction)
    : TaskInstruction :=
  {| task := task i; data := data i;
     dependencies := dependencies i; invertedDependencies := s |}.

(** [this.addDependency(dependency, component)] *)
Definition addDependency (this dependency : loc)
    (component : ModelComponent) : M Heap unit :=
  toStr ← gets toString;
  deps ← field dependencies this;
  let componentSet :=
    match Dictionary.getValue toStr deps dependency with
    | None => ∅
    | Some componentSet => componentSet
    end in
  let componentSet := {[component]} ∪ componentSet in
  update this
    (set_dependencies (Dictionary.setValue toStr dependency componentSet deps)) ;;
  toStr ← gets toString;
  inverted ← field invertedDependencies dependency;
  update dependency (set_invertedDependencies (CSet.add toStr this inverted)).

(** [this.transferOutput(target)] *)
Definition transferOutput (this target : loc) : M Heap unit :=
  toStr ← gets toString;
  deps ← field dependencies target;
  match Dictionary.getValue toStr deps this with
  | None =>
      throw (Error "Cannot transfer components to independent instruction.")
  | Some componentsToTransfer =>
      forEach (elements componentsToTransfer) (λ component,
        source ← field data this;
        value ← getComponentOf source component;
        destination ← field data target;
        setComponentOf destination component value)
  end.

(** ** Task processors *)

(** The interface [TaskProcessor] (taskProcessor.ts, not part of the sources
    at hand), as far as [Model] uses it: the state of a processor, how one
    is made for a data store, and its [schedule] method, which may change
    the heap and may throw. *)
Class TaskProcessor (Processor : Type) : Type := {
  new_Processor : loc → Processor;
  schedule : ModelTask → Processor → M Heap Processor;
}.

(** ** The out-of-order processor *)

(** Modelled from the spec: outOfOrderProcessor.ts is not part of the
    sources at hand.  The state of the processor is the shared data store,
    the pool of eligible instructions, the pool of the others, and the
    last-writer index, which maps a component to the instruction scheduled
    last among those that write it. *)
Record OutOfOrderProcessor : Type := {
  sharedData : loc;
  readyPool : list loc;
  pendingPool : list loc;
  lastWriter : gmap ModelComponent loc;
}.

Definition new_OutOfOrderProcessor (data : loc) : OutOfOrderProcessor :=
  {| sharedData := data; readyPool := []; pendingPool := [];
     lastWriter := ∅ |}.

(** [task.metadata.readSet] and the like read a property of
    [task.metadata]. *)
Definition metadataOf {S} (task : ModelTask) : M S ModelTaskMetadata :=
  match metadata task with
  | None => throw (TypeError "Cannot read property of null")
  | Some md => mret md
  end.

(** Modelled from the spec: [schedule(task)] (1) creates an instruction for
    the task, with a private snapshot of the shared store; (2) for each key
    of the read set that has a producer in the last-writer index, calls
    [addDependency(producer, key)] on the new instruction; (3) makes the new
    instruction the last writer of each key of the write set; (4) puts the
    instruction in the ready pool when it is eligible and in the pending pool
    otherwise. *)
Definition OutOfOrderProcessor_schedule (task : ModelTask)
    (p : OutOfOrderProcessor) : M Heap OutOfOrderProcessor :=
  shared ← gets (λ h, stores h !!! sharedData p);
  snapshot ← alloc_ModelData shared;
  instruction ← new_TaskInstruction task snapshot;
  md ← metadataOf task;
  forEach (elements (readSet md)) (λ key,
    match lastWriter p !! key with
    | Some producer => addDependency instruction producer key
    | None => mret tt
    end) ;;
  let index' :=
    foldr (λ key lw, <[key := instruction]> lw) (lastWriter p)
          (elements (writeSet md)) in
  eligible ← isEligibleForExecution instruction;
  mret (if eligible : bool
        then {| sharedData := sharedData p;
                readyPool := readyPool p ++ [instruction];
                pendingPool := pendingPool p;
                lastWriter := index' |}
        else {| sharedData := sharedData p;
                readyPool := readyPool p;
                pendingPool := pendingPool p ++ [instruction];
                lastWriter := index' |}).

(** A sequence of [schedule] calls made by the application, one per task; a
    call that throws leaves the processor as it was before the call. *)
Fixpoint scheduleAll (ts : list ModelTask) (p : OutOfOrderProcessor)
    (h : Heap) : OutOfOrderProcessor * Heap :=
  match ts with
  | [] => (p, h)
  | t :: ts' =>
      match OutOfOrderProcessor_schedule t p h with
      | (Returned p', h') => scheduleAll ts' p' h'
      | (Thrown _, h') => scheduleAll ts' p h'
      end
  end.

Global Instance OutOfOrderProcessor_TaskProcessor
    : TaskProcessor OutOfOrderProcessor := {|
  new_Processor := new_OutOfOrderProcessor;
  schedule := OutOfOrderProcessor_schedule;
|}.

(** The dependency graph: an edge from [i] to [j] when [j] is a key of the
    dependency mapping of the instruction [i]. *)
Definition dependsOn (h : Heap) (i j : loc) : Prop :=
  i < length (instructions h) ∧
  j ∈ Dictionary.keys (dependencies (instructions h !!! i)).

Definition acyclic (h : Heap) : Prop :=
  ∀ i, ¬ tc (dependsOn h) i i.

Definition backward (h : Heap) : Prop :=
  ∀ i j, dependsOn h i j → j < i.

(** The last-writer index names instructions of the heap only. *)
Definition lastWriter_allocated (p : OutOfOrderProcessor) (h : Heap) : Prop :=
  ∀ k j, lastWriter p !! k = Some j → j < length (instructions h).

(** What [schedule] does for one key of the read set. *)
Definition dependOnLastWriter (p : OutOfOrderProcessor) (instruction : loc)
    (key : ModelComponent) : M Heap unit :=
  match lastWriter p !! key with
  | Some producer => addDependency instruction producer key
  | None => mret tt
  end.

(** ** model.ts *)

(** [ModelObserver]: a function that takes a change set and produces the
    tasks to process. *)
Definition ModelObserver : Type := gset ModelComponent → list ModelTask.

(** The calls a model makes, in the order it makes them. *)
Inductive Call : Type :=
  | ObserverCalled (observer : ModelObserver)
                   (changeBuffer : gset ModelComponent)
  | ScheduleCalled (task : ModelTask).

Definition isObserverCalled (c : Call) : bool :=
  match c with ObserverCalled _ _ => true | ScheduleCalled _ => false end.

Section model.

(** The processor of the model, behind the interface [TaskProcessor]. *)
Context `{TaskProcessor Processor}.

(** The fields of a [Model], [tasks] and [observers]; the data store
    captured by the function it gives to its processor, [wellDefinedData];
    the heap that holds the objects they refer to; and [calls], which is
    not a field of the class: it keeps the calls made so far, so that their
    order can be stated. *)
Record Model : Type := {
  tasks : Processor;
  observers : list ModelObserver;
  wellDefinedData : loc;
  heap : Heap;
  calls : list Call;
}.

Definition with_tasks (p : Processor) (m : Model) : Model :=
  {| tasks := p; observers := observers m;
     wellDefinedData := wellDefinedData m; heap := heap m;
     calls := calls m |}.

Definition with_observers (os : list ModelObserver) (m : Model) : Model :=
  {| tasks := tasks m; observers := os;
     wellDefinedData := wellDefinedData m; heap := heap m;
     calls := calls m |}.

Definition with_heap (h : Heap) (m : Model) : Model :=
  {| tasks := tasks m; observers := observers m;
     wellDefinedData := wellDefinedData m; heap := h;
     calls := calls m |}.

Definition record (c : Call) : M Model unit :=
  modify (λ m, {| tasks := tasks m; observers := observers m;
                  wellDefinedData := wellDefinedData m; heap := heap m;
                  calls := calls m ++ [c] |}).

(** A computation on the heap, run on the heap of the model. *)
Definition on_heap {A} (c : M Heap A) : M Model A := λ m,
  let (r, h') := c (heap m) in (r, with_heap h' m).

(** [new Model(data)] *)
Definition new_Model (data : option loc) (h : Heap) : Model :=
  let (wellDefinedData, h') :=
    match data with
    | None => (length (stores h), with_stores (λ l, l ++ [new_ModelData]) h)
    | Some d => (d, h)
    end in
  {| tasks := new_Processor wellDefinedData;
     observers := [];
     wellDefinedData := wellDefinedData;
     heap := h';
     calls := [] |}.

(** [Model.createTask(execute, readSet, writeSet, priority)] *)
Definition createTask (execute : Effect)
    (readSet writeSet : gset ModelComponent + list ModelComponent)
    (priority : option Z) : M Model ModelTask :=
  mret (OpaqueTask execute (new_ModelTaskMetadata readSet writeSet priority)).

(** [this.registerObserver(observer)] *)
Definition registerObserver (observer : ModelObserver) : M Model unit :=
  modify (λ m, with_observers (observers m ++ [observer]) m).

(** [this.tasks.schedule(newTask)] *)
Definition tasks_schedule (newTask : ModelTask) : M Model unit :=
  record (ScheduleCalled newTask) ;;
  p ← gets tasks;
  p' ← on_heap (schedule newTask p);
  modify (with_tasks p').

(** [this.notifyObservers(changeBuffer)] *)
Definition notifyObservers (changeBuffer : gset ModelComponent)
    : M Model unit :=
  os ← gets observers;
  forEach os (λ element,
    record (ObserverCalled element changeBuffer) ;;
    forEach (element changeBuffer) (λ newTask, tasks_schedule newTask)).

(** The function the constructor gives to the processor, which the
    processor calls when a task completes:
    [task => this.notifyObservers(wellDefinedData.drainChangeBuffer())]. *)
Definition onTaskCompleted (task : ModelTask) : M Model unit :=
  d ← gets wellDefinedData;
  changeBuffer ← on_heap (λ h,
    let (changed, store) := drainChangeBuffer (stores h !!! d) in
    (Returned changed, with_stores (λ l, <[d := store]> l) h));
  notifyObservers changeBuffer.

(** The calls [notifyObservers] makes for the observers [os]: each observer
    in turn, followed by a [schedule] for each task it returned. *)
Definition callsFor (changeBuffer : gset ModelComponent)
    (os : list ModelObserver) : list Call :=
  os ≫= (λ o, ObserverCalled o changeBuffer
               :: (ScheduleCalled <$> o changeBuffer)).

(** The tasks the observers [os] return, in the order they return them. *)
Definition tasksFor (changeBuffer : gset ModelComponent)
    (os : list ModelObserver) : list ModelTask :=
  os ≫= (λ o, o changeBuffer).

(** The processor and the heap after [schedule] was called for each task of
    [ts] in turn, up to the first call that throws. *)
Fixpoint scheduled (ts : list ModelTask) (p : Processor) (h : Heap)
    : Processor * Heap :=
  match ts with
  | [] => (p, h)
  | t :: ts' =>
      match schedule t p h with
      | (Returned p', h') => scheduled ts' p' h'
      | (Thrown _, h') => (p, h')
      end
  end.

(** The data store a model refers to, with its change buffer drained. *)
Definition drained (m : Model) : Heap :=
  with_stores
    (λ l, <[wellDefinedData m :=
              (drainChangeBuffer (stores (heap m) !!! wellDefinedData m)).2]> l)
    (heap m).

End model.

(** ** fileDAO.ts: the tasks of the persistence layer *)

Section fileDAO.

(** The class [Component] (component.ts, not part of the sources at hand):
    [new Component()], and [setPart] and [getPart] on a component. *)
Context (new_Component : Obj).
Context (setPart : string → any → Obj → Obj).
Context (getPart : string → Obj → any).

(** [new LoadTask(result, module)].  [component.setPart] changes the
    component it is called on; components are values here, so the task is
    followed through what [data] holds for the type of the module, and not
    through other references to the same [Component] object. *)
Definition LoadTask (result : any) (module : FileModule) : ModelTask :=
  ProcessorTask
    (λ data,
       let component :=
         match getComponent data (getType module) with
         | object component => component
         | null | undefined => new_Component
         end in
       let component := setPart (getFilename module) result component in
       (setComponent (getType module) (object component) data, []))
    None.

(** [new SaveTask(io, module)] *)
Definition SaveTask (io : IOFacilitator) (module : FileModule) : ModelTask :=
  ProcessorTask
    (λ data,
       match getComponent data (getType module) with
       | object component =>
           (data, [ {| written_by := io; written_module := module;
                       written_data := getPart (getFilename module) component |} ])
       | null | undefined => (data, [])
       end)
    None.

End fileDAO.

(** ** fileDAO.ts: IOFacilitator *)

(** A file handed to [FileSaver.saveAs]: [new File([content], filename)]. *)
Record SavedFile : Type := {
  saved_name : string;
  saved_content : any;
}.

Section IOFacilitator.

(** The interface [Parser] (parser.d.ts, not part of the sources at hand), as
    far as [IOFacilitator] uses it: the label of a parser and its
    [serialize] method, which may throw; and the [type] of a [Blob]. *)
Context (getLabel : Obj → ModelComponent).
Context (serialize : Obj → any → string → Outcome any).
Context (blobType : Obj → string).

(** [new IOFacilitator()] *)
Definition new_IOFacilitator : IOFacilitator := {| modems := ∅ |}.

(** [io.registerModem(parser)] *)
Definition registerModem (parser : Obj) (io : IOFacilitator)
    : IOFacilitator :=
  {| modems := <[getLabel parser := parser]> (modems io) |}.

(** [io.writeToFile(module, data)], on the files saved so far. *)
Definition writeToFile (io : IOFacilitator) (module : FileModule)
    (data : any) : M (list SavedFile) unit :=
  match modems io !! getType module with
  | None => throw (TypeError "Cannot read property 'serialize' of undefined")
  | Some modem =>
      match serialize modem data (blobType (getFile module)) with
      | Thrown e => throw e
      | Returned content =>
          modify (λ saved,
            saved ++ [ {| saved_name := getFilename module;
                          saved_content := content |} ])
      end
  end.

End IOFacilitator.

(** ** Auxiliary definitions for the statements *)

(** The data that results from setting, for each key of [l] in turn, the
    component [k] to [value k]. *)
Definition setComponents (value : ModelComponent → any)
    (l : list ModelComponent) (d : ModelData) : ModelData :=
  foldl (λ d k, setComponent k (value k) d) d l.

(** The body of the loop of [transferOutput]. *)
Definition transferComponent (this target : loc)
    (component : ModelComponent) : M Heap unit :=
  source ← field data this;
  value ← getComponentOf source component;
  destination ← field data target;
  setComponentOf destination component value.

(** A producer and a consumer that depends on it for the component [k]:
    [P = new TaskInstruction(t0, d0)], [T = new TaskInstruction(t1, d1)],
    [T.addDependency(P, k)], where [d0] is a new [ModelData] and [d1] is
    either another one or, when [shared], the same object. *)
Definition producer_and_consumer (t0 t1 : ModelTask) (shared : bool)
    (k : ModelComponent) : M Heap (loc * loc) :=
  d0 ← alloc_ModelData new_ModelData;
  d1 ← (if shared then mret d0 else alloc_ModelData new_ModelData);
  P ← new_TaskInstruction t0 d0;
  T ← new_TaskInstruction t1 d1;
  addDependency T P k ;;
  mret (P, T).

(** A task that does nothing. *)
Definition idle (metadata : option ModelTaskMetadata) (index : option Z)
    : ModelTask :=
  {| execute := λ d, (d, []); metadata := metadata; index := index |}.

(** The heap of a producer, at address 0, and of a consumer, at address 1,
    that depends on it for the component [k]. *)
Definition example_heap (shared : bool) (k : ModelComponent) : Heap :=
  (producer_and_consumer (idle None (Some 1%Z)) (idle None (Some 2%Z))
     shared k empty_heap).2.

(** An observer that schedules a task on [k] whenever [k] has changed. *)
Definition example_observer (k : ModelComponent) : ModelObserver :=
  λ changed,
    if decide (k ∈ changed)
    then [OpaqueTask (λ d, (d, []))
            (new_ModelTaskMetadata (inr [k]) (inr [k]) None)]
    else [].

(** A new model on an out-of-order processor in which a task has just
    written the component [k]. *)
Definition example_model (k : ModelComponent)
    : @Model OutOfOrderProcessor :=
  let m := new_Model None empty_heap in
  with_heap
    (with_stores (alter (setComponent k undefined) (wellDefinedData m))
       (heap m)) m.

(** The statement that [transferOutput] copies the values and then removes
    the entry of the producer from the dependency mapping of the target. *)
Definition transferOutput_removes_dependency : Prop :=
  ∀ (h : Heap) (this target : loc) (cs : gset ModelComponent),
    this < length (instructions h) →
    target < length (instructions h) →
    data (instructions h !!! target) < length (stores h) →
    Dictionary.getValue (toString h)
      (dependencies (instructions h !!! target)) this = Some cs →
    ∃ h', transferOutput this target h = (Returned tt, h') ∧
      (∀ k, k ∈ cs →
         getComponent (stores h' !!! data (instructions h' !!! target)) k
         = getComponent (stores h !!! data (instructions h !!! this)) k) ∧
      Dictionary.getValue (toString h')
        (dependencies (instructions h' !!! target)) this = None.

(** ** Sequences of calls on task instructions *)

(** A call a processor can make on the instructions of a heap. *)
Inductive Operation : Type :=
  | NewTaskInstruction (task : ModelTask) (data : loc)
  | AddDependency (this dependency : loc) (component : ModelComponent)
  | TransferOutput (this target : loc).

Definition perform (op : Operation) : M Heap unit :=
  match op with
  | NewTaskInstruction task data => new_TaskInstruction task data ;; mret tt
  | AddDependency this dependency component =>
      addDependency this dependency component
  | TransferOutput this target => transferOutput this target
  end.

(** The heap after the calls were made in turn, the caller catching what
    they throw. *)
Definition performAll (ops : list Operation) (h : Heap) : Heap :=
  foldl (λ h op, (perform op h).2) h ops.

(** The calls name instructions that exist when the call is made, [n]
    being the number of instructions before the first call. *)
Fixpoint well_addressed (n : nat) (ops : list Operation) : Prop :=
  match ops with
  | [] => True
  | NewTaskInstruction _ _ :: ops' => well_addressed (S n) ops'
  | AddDependency this dependency _ :: ops' =>
      this < n ∧ dependency < n ∧ well_addressed n ops'
  | TransferOutput this target :: ops' =>
      this < n ∧ target < n ∧ well_addressed n ops'
  end.

(** Every instruction that is depended upon exists and has the dependent
    instruction among its inverted dependencies. *)
Definition mirrored (h : Heap) : Prop :=
  ∀ i j, dependsOn h i j →
    j < length (instructions h) ∧
    CSet.contains (toString h)
      (invertedDependencies (instructions h !!! j)) i = true.

(** An observer that returns a task without metadata, whatever changed. *)
Definition careless_observer : ModelObserver :=
  λ _, [idle None None].

(** The heap of two producers whose tasks have the same index, at the
    addresses 0 and 1, and of a consumer, at address 2. *)
Definition twin_producers_heap : Heap :=
  performAll
    [ NewTaskInstruction (idle None (Some 1%Z)) 0;
      NewTaskInstruction (idle None (Some 1%Z)) 0;
      NewTaskInstruction (idle None (Some 2%Z)) 0 ]
    {| instructions := []; stores := [new_ModelData] |}.

(** The heap of a producer, at address 0, and of two consumers whose tasks
    have the same index, at the addresses 1 and 2, the first of which
    depends on the producer for [k]. *)
Definition twin_consumers_heap (k : ModelComponent) : Heap :=
  performAll
    [ NewTaskInstruction (idle None (Some 1%Z)) 0;
      NewTaskInstruction (idle None (Some 2%Z)) 0;
      NewTaskInstruction (idle None (Some 2%Z)) 0;
      AddDependency 1 0 k ]
    {| instructions := []; stores := [new_ModelData] |}.

(** The statement that [transferOutput] throws whenever no entry of the
    dependency mapping of the target has the producer as its key, that is,
    whenever the target declared no dependency on that producer, and
    returns normally when there is such an entry. *)
Definition transferOutput_throws_unless_declared : Prop :=
  ∀ (h : Heap) (this target : loc),
    this < length (instructions h) →
    target < length (instructions h) →
    (this ∉ Dictionary.keys (dependencies (instructions h !!! target)) →
     ∃ e, (transferOutput this target h).1 = Thrown e) ∧
    (this ∈ Dictionary.keys (dependencies (instructions h !!! target)) →
     (transferOutput this target h).1 = Returned tt).

(** The statement that [addDependency] records the two instructions
    themselves: afterwards the dependency mapping has an entry whose key is
    the producer and whose set has the component, an entry more than before
    when none had the producer as its key, and the instruction is among the
    elements stored in the inverted dependencies of the producer. *)
Definition addDependency_records_the_instructions : Prop :=
  ∀ (h : Heap) (this dependency : loc) (component : ModelComponent),
    this < length (instructions h) →
    dependency < length (instructions h) →
    ∃ h', addDependency this dependency component h = (Returned tt, h') ∧
      (∃ s cs,
         dependencies (instructions h' !!! this) !! s = Some (dependency, cs) ∧
         component ∈ cs) ∧
      (dependency ∉ Dictionary.keys (dependencies (instructions h !!! this)) →
       size (dependencies (instructions h' !!! this))
       = S (size (dependencies (instructions h !!! this)))) ∧
      this ∈ Dictionary.keys
               (invertedDependencies (instructions h' !!! dependency)).

(** The model of [example_model] with three observers, the second of which
    returns a task without metadata. *)
Definition example_model_with_observers (k : ModelComponent)
    : @Model OutOfOrderProcessor :=
  (forEach [example_observer k; careless_observer; example_observer k]
     registerObserver (example_model k)).2.

(** * Properties *)

#[local] Set Warnings "-clear-no-such-hyp".

Ltac run :=
  unfold isEligibleForExecution, getPriority, field, update,
    getComponentOf, setComponentOf, metadataOf;
  unfold mbind, M_bind, mret, M_ret, gets, modify, throw; simpl.

Lemma forEach_cons {S A} (x : A) (l : list A) (f : A → M S unit) s :
  forEach (x :: l) f s
  = match f x s with
    | (Returned _, s') => forEach l f s'
    | (Thrown e, s') => (Thrown e, s')
    end.
Proof. reflexivity. Qed.

Section task_instruction.

Implicit Types (h : Heap) (this target dependency : loc).
Implicit Types (component : ModelComponent).

Lemma isEmpty_true_iff {K V} (d : Dictionary K V) :
  Dictionary.isEmpty d = true ↔ d = ∅.
Proof.
  unfold Dictionary.isEmpty. rewrite bool_decide_eq_true.
  rewrite <- map_size_empty_iff. lia.
Qed.

Lemma isEmpty_setValue {K V} (toStr : K → string) key value
    (d : Dictionary K V) :
  Dictionary.isEmpty (Dictionary.setValue toStr key value d) = false.
Proof.
  apply not_true_is_false. rewrite isEmpty_true_iff.
  unfold Dictionary.setValue. apply insert_non_empty.
Qed.

(** C6: [isEligibleForExecution] returns [true] exactly when the dependency
    mapping of the instruction is empty; it changes nothing. *)
Theorem isEligibleForExecution_iff_no_dependencies h this :
  ∃ b, isEligibleForExecution this h = (Returned b, h) ∧
       (b = true ↔ dependencies (instructions h !!! this) = ∅).
Proof.
  exists (Dictionary.isEmpty (dependencies (instructions h !!! this))).
  split; [reflexivity | apply isEmpty_true_iff].
Qed.

Lemma contains_add {K} (toStr : K → string) element (s : CSet K) :
  CSet.contains toStr (CSet.add toStr element s) element = true.
Proof.
  unfold CSet.add. destruct (CSet.contains toStr s element) eqn:E; [done|].
  unfold CSet.contains, Dictionary.containsKey, Dictionary.getValue,
    Dictionary.setValue.
  rewrite lookup_insert_eq. by apply bool_decide_eq_true.
Qed.

Lemma add_ext {K} (toStr toStr' : K → string) element (s : CSet K) :
  toStr' element = toStr element →
  CSet.add toStr' element s = CSet.add toStr element s.
Proof.
  intros E.
  unfold CSet.add, CSet.contains, Dictionary.containsKey,
    Dictionary.getValue, Dictionary.setValue.
  by rewrite E.
Qed.

Lemma getValue_setValue {K V} (toStr : K → string) key value
    (d : Dictionary K V) :
  Dictionary.getValue toStr (Dictionary.setValue toStr key value d) key
  = Some value.
Proof.
  unfold Dictionary.getValue, Dictionary.setValue.
  by rewrite lookup_insert_eq.
Qed.

Lemma task_alter (f : TaskInstruction → TaskInstruction)
    (l : list TaskInstruction) i j :
  (∀ x, task (f x) = task x) → task (alter f i l !!! j) = task (l !!! j).
Proof.
  intros Hf. rewrite list_lookup_total_alter.
  case_decide as Hd; [destruct Hd as [-> _]; apply Hf | done].
Qed.

Lemma toString_alter f i h j :
  (∀ x, task (f x) = task x) →
  toString (with_instructions (alter f i) h) j = toString h j.
Proof. intros Hf. unfold toString; simpl. by rewrite task_alter. Qed.

(** Instructions whose tasks have different indices are filed under
    different keys. *)
Lemma toString_inj h i j (a b : Z) :
  index (task (instructions h !!! i)) = Some a →
  index (task (instructions h !!! j)) = Some b →
  toString h i = toString h j → a = b.
Proof.
  unfold toString. intros -> ->. simpl. intros E.
  apply (inj pretty). by simplify_eq.
Qed.

(** What [addDependency] leaves in the heap. *)
Lemma addDependency_run h this dependency component :
  let toStr := toString h in
  let deps := dependencies (instructions h !!! this) in
  let componentSet :=
    {[component]} ∪ default ∅ (Dictionary.getValue toStr deps dependency) in
  let h1 :=
    with_instructions
      (alter (set_dependencies
                (Dictionary.setValue toStr dependency componentSet deps))
             this) h in
  addDependency this dependency component h
  = (Returned tt,
     with_instructions
       (alter (set_invertedDependencies
                 (CSet.add toStr this
                    (invertedDependencies (instructions h1 !!! dependency))))
              dependency) h1).
Proof.
  intros toStr deps componentSet h1.
  unfold addDependency. run. fold toStr deps.
  assert (match Dictionary.getValue toStr deps dependency with
          | Some componentSet0 => componentSet0
          | None => ∅
          end = default ∅ (Dictionary.getValue toStr deps dependency)) as ->
    by by destruct (Dictionary.getValue toStr deps dependency).
  fold componentSet. fold h1.
  do 4 f_equal. apply add_ext. by apply toString_alter.
Qed.

Lemma addDependency_returns h this dependency component :
  addDependency this dependency component h
  = (Returned tt, (addDependency this dependency component h).2).
Proof. by rewrite addDependency_run. Qed.

Lemma addDependency_then {A} (k : M Heap A) h this dependency component :
  (addDependency this dependency component ;; k) h
  = k (addDependency this dependency component h).2.
Proof. unfold mbind, M_bind. by rewrite addDependency_run. Qed.

Lemma addDependency_this h this dependency component :
  this < length (instructions h) →
  dependencies
    (instructions (addDependency this dependency component h).2 !!! this)
  = Dictionary.setValue (toString h) dependency
      ({[component]} ∪
       default ∅ (Dictionary.getValue (toString h)
                    (dependencies (instructions h !!! this)) dependency))
      (dependencies (instructions h !!! this)).
Proof.
  intros Hthis. rewrite addDependency_run. cbn [snd].
  unfold with_instructions at 1. cbn [instructions].
  rewrite list_lookup_total_alter. case_decide as E.
  - destruct E as [-> _]. cbn [set_invertedDependencies dependencies].
    unfold with_instructions. cbn [instructions].
    by rewrite list_lookup_total_alter_eq.
  - unfold with_instructions. cbn [instructions].
    by rewrite list_lookup_total_alter_eq.
Qed.

Lemma isEligibleForExecution_fst h this :
  (isEligibleForExecution this h).1
  = Returned (Dictionary.isEmpty (dependencies (instructions h !!! this))).
Proof. reflexivity. Qed.

(** C5, as the code has it: [I.addDependency(P, k)] sets the entry that the
    dependency mapping of [I] files under [P.toString()] to [P] with [k]
    added to the keys that were filed there, or with [k] alone when nothing
    was; every other entry is as it was.  The inverted dependencies of [P]
    become what [add(I)] makes of them, and then contain [I] in the sense of
    [contains]: [I] itself is stored only if no instruction with the same
    string was there. *)
Theorem addDependency_records h this dependency component :
  this < length (instructions h) →
  dependency < length (instructions h) →
  let toStr := toString h in
  let deps := dependencies (instructions h !!! this) in
  let componentSet :=
    {[component]} ∪ default ∅ (Dictionary.getValue toStr deps dependency) in
  ∃ h', addDependency this dependency component h = (Returned tt, h') ∧
    (∀ i, toString h' i = toStr i) ∧
    dependencies (instructions h' !!! this)
      = <[toStr dependency := (dependency, componentSet)]> deps ∧
    Dictionary.getValue toStr (dependencies (instructions h' !!! this))
      dependency = Some componentSet ∧
    CSet.contains toStr
      (invertedDependencies (instructions h' !!! dependency)) this = true ∧
    invertedDependencies (instructions h' !!! dependency)
      = CSet.add toStr this
          (invertedDependencies (instructions h !!! dependency)) ∧
    stores h' = stores h.
Proof.
  intros Hthis Hdep toStr deps componentSet.
  eexists. split; [apply addDependency_run|].
  fold toStr deps componentSet.
  set (D := Dictionary.setValue toStr dependency componentSet deps).
  set (h1 := with_instructions (alter (set_dependencies D) this) h).
  set (S := CSet.add toStr this
              (invertedDependencies (instructions h1 !!! dependency))).
  assert (Hd : dependencies
                 (alter (set_invertedDependencies S) dependency
                    (instructions h1) !!! this) = D).
  { rewrite list_lookup_total_alter. simpl.
    case_decide as E.
    - destruct E as [-> _]. simpl.
      by rewrite list_lookup_total_alter_eq.
    - by rewrite list_lookup_total_alter_eq. }
  assert (Hi : invertedDependencies
                 (alter (set_invertedDependencies S) dependency
                    (instructions h1) !!! dependency) = S).
  { rewrite list_lookup_total_alter_eq; [done|].
    simpl. by rewrite length_alter. }
  assert (Hinv : invertedDependencies (instructions h1 !!! dependency)
                 = invertedDependencies (instructions h !!! dependency)).
  { simpl. rewrite list_lookup_total_alter. by case_decide as E;
      [destruct E as [-> _]|]. }
  simpl in Hd, Hi. repeat split; simpl.
  - intros i. rewrite toString_alter by done. by apply toString_alter.
  - apply Hd.
  - rewrite Hd. apply getValue_setValue.
  - rewrite Hi. apply contains_add.
  - rewrite Hi. unfold S. by rewrite Hinv.
Qed.

Lemma alter_alter {A} (f g : A → A) (l : list A) i :
  alter g i (alter f i l) = alter (g ∘ f) i l.
Proof.
  revert i. induction l as [|a l IH]; intros [|i]; simpl; try done.
  f_equal. apply IH.
Qed.

Lemma getComponent_setComponent k k' value (d : ModelData) :
  getComponent (setComponent k value d) k'
  = if decide (k = k') then value else getComponent d k'.
Proof.
  unfold getComponent, setComponent; simpl.
  rewrite lookup_insert. by case_decide.
Qed.

Lemma getComponent_setComponents value l (d : ModelData) k :
  getComponent (setComponents value l d) k
  = if decide (k ∈ l) then value k else getComponent d k.
Proof.
  unfold setComponents. revert d.
  induction l as [|k0 l IH]; intros d; simpl.
  - by destruct (decide (k ∈ [])) as [E%elem_of_nil|].
  - rewrite IH. rewrite getComponent_setComponent.
    repeat case_decide; subst; try done; set_solver.
Qed.

Lemma changeBuffer_setComponents value l (d : ModelData) :
  changeBuffer (setComponents value l d) = list_to_set l ∪ changeBuffer d.
Proof.
  unfold setComponents. revert d.
  induction l as [|k0 l IH]; intros d; simpl.
  - set_solver.
  - rewrite IH. simpl. set_solver.
Qed.

Lemma setComponents_other value l (d : ModelData) k :
  k ∉ l →
  components (setComponents value l d) !! k = components d !! k ∧
  (k ∈ changeBuffer (setComponents value l d) ↔ k ∈ changeBuffer d).
Proof.
  unfold setComponents. revert d.
  induction l as [|k0 l IH]; intros d Hl; simpl; [done|].
  apply not_elem_of_cons in Hl as [Hk0 Hl].
  destruct (IH (setComponent k0 (value k0) d) Hl) as [-> ->]. simpl.
  rewrite lookup_insert_ne by done. split; [done|].
  rewrite elem_of_union, elem_of_singleton. naive_solver.
Qed.

(** The loop of [transferOutput]: on keys that are pairwise distinct it sets
    each of them, in the data of the target, to the value the data of the
    producer had for it before the loop, also when both are one object. *)
Lemma forEach_transferComponent this target l :
  NoDup l →
  ∀ h value,
    (∀ k, k ∈ l →
       getComponent (stores h !!! data (instructions h !!! this)) k = value k) →
    forEach l (transferComponent this target) h
    = (Returned tt,
       with_stores
         (alter (setComponents value l) (data (instructions h !!! target))) h).
Proof.
  induction 1 as [|k l Hk Hl IH]; intros h value Hv.
  - simpl. unfold mret, M_ret. f_equal. destruct h as [insts sts].
    unfold with_stores; simpl. f_equal. symmetry. by apply list_alter_id.
  - simpl. unfold transferComponent at 1. run.
    rewrite (IH _ value).
    + f_equal. unfold with_stores; simpl. f_equal.
      rewrite alter_alter. apply list_alter_ext; [|done].
      intros d _. unfold setComponents; simpl.
      by rewrite Hv by set_solver.
    + intros k' Hk'. simpl.
      rewrite list_lookup_total_alter. case_decide as E.
      * destruct E as [-> _]. rewrite getComponent_setComponent.
        case_decide; [set_solver|]. apply Hv. set_solver.
      * apply Hv. set_solver.
Qed.

(** What [transferOutput] does, by cases on the dependency mapping of the
    target. *)
Lemma transferOutput_run h this target :
  transferOutput this target h
  = match Dictionary.getValue (toString h)
            (dependencies (instructions h !!! target)) this with
    | None =>
        (Thrown
           (Error "Cannot transfer components to independent instruction."),
         h)
    | Some cs =>
        (Returned tt,
         with_stores
           (alter
              (setComponents
                 (getComponent (stores h !!! data (instructions h !!! this)))
                 (elements cs))
              (data (instructions h !!! target))) h)
    end.
Proof.
  unfold transferOutput. run.
  destruct (Dictionary.getValue _ _ _) as [cs|]; [|done].
  apply (forEach_transferComponent this target (elements cs));
    [apply NoDup_elements | done].
Qed.

Lemma transferOutput_instructions h this target r h' :
  transferOutput this target h = (r, h') → instructions h' = instructions h.
Proof.
  rewrite transferOutput_run.
  destruct (Dictionary.getValue _ _ _); by intros [= _ <-].
Qed.

(** C4, as the code has it: [P.transferOutput(T)] throws exactly when the
    dependency mapping of [T] has no entry filed under [P.toString()], that
    is, when [target.dependencies.getValue(this)] is [undefined], and then
    leaves the heap as it is; when there is such an entry, whichever
    instruction it was made for, it returns normally. *)
Theorem transferOutput_throws_iff_independent h this target :
  (transferOutput this target h).1
  = match Dictionary.getValue (toString h)
            (dependencies (instructions h !!! target)) this with
    | None =>
        Thrown
          (Error "Cannot transfer components to independent instruction.")
    | Some _ => Returned tt
    end
  ∧ (Dictionary.getValue (toString h)
       (dependencies (instructions h !!! target)) this = None ↔
     ∃ e, transferOutput this target h = (Thrown e, h)).
Proof.
  rewrite transferOutput_run.
  destruct (Dictionary.getValue _ _ _) as [cs|]; simpl.
  - split; [done|]. split; [done|]. by intros [e [=]].
  - split; [done|]. split; [|done]. intros _. by eexists.
Qed.

(** C1, as the code has it: when the dependency mapping of [T] records the
    keys [cs] for [P], [P.transferOutput(T)] returns normally and the data
    of [T] then holds, for every key of [cs], the value the data of [P] had
    for it; the dependency mapping of [T] is left as it was, so the entry
    of [P] is still there and [T] is still not eligible. *)
Theorem transferOutput_copies_and_keeps_dependency h this target cs :
  data (instructions h !!! target) < length (stores h) →
  Dictionary.getValue (toString h)
    (dependencies (instructions h !!! target)) this = Some cs →
  ∃ h', transferOutput this target h = (Returned tt, h') ∧
    (∀ k, k ∈ cs →
       getComponent (stores h' !!! data (instructions h' !!! target)) k
       = getComponent (stores h !!! data (instructions h !!! this)) k) ∧
    instructions h' = instructions h ∧
    Dictionary.getValue (toString h')
      (dependencies (instructions h' !!! target)) this = Some cs ∧
    isEligibleForExecution target h' = (Returned false, h').
Proof.
  intros Hdata Hcs. eexists. split.
  { rewrite transferOutput_run, Hcs. reflexivity. }
  simpl. repeat split.
  - intros k Hk. rewrite list_lookup_total_alter_eq by done.
    rewrite getComponent_setComponents.
    rewrite decide_True; [done|]. by apply elem_of_elements.
  - done.
  - unfold isEligibleForExecution. run. do 2 f_equal.
    apply not_true_is_false. rewrite isEmpty_true_iff. intros E.
    unfold Dictionary.getValue in Hcs. rewrite E in Hcs.
    by rewrite lookup_empty in Hcs.
Qed.

(** The component values of the data of the producer are as they were,
    whether or not the target shares that data. *)
Lemma transferOutput_producer_values h this target r h' k :
  transferOutput this target h = (r, h') →
  getComponent (stores h' !!! data (instructions h !!! this)) k
  = getComponent (stores h !!! data (instructions h !!! this)) k.
Proof.
  rewrite transferOutput_run.
  destruct (Dictionary.getValue _ _ _) as [cs|]; intros [= _ <-]; [|done].
  simpl. rewrite list_lookup_total_alter. case_decide as E; [|done].
  destruct E as [-> _]. rewrite getComponent_setComponents.
  by case_decide.
Qed.

(** What [transferOutput] leaves as it was: every instruction and every
    data object other than the data of the target; there it changes the
    recorded keys only, in the components and in the change buffer. *)
Lemma transferOutput_frame h this target cs :
  Dictionary.getValue (toString h)
    (dependencies (instructions h !!! target)) this = Some cs →
  ∃ h', transferOutput this target h = (Returned tt, h') ∧
    instructions h' = instructions h ∧
    length (stores h') = length (stores h) ∧
    (∀ d, d ≠ data (instructions h !!! target) →
       stores h' !!! d = stores h !!! d) ∧
    (data (instructions h !!! this) ≠ data (instructions h !!! target) →
     stores h' !!! data (instructions h !!! this)
       = stores h !!! data (instructions h !!! this)) ∧
    (∀ k, getComponent (stores h' !!! data (instructions h !!! this)) k
          = getComponent (stores h !!! data (instructions h !!! this)) k) ∧
    (∀ k, k ∉ cs →
       components (stores h' !!! data (instructions h !!! target)) !! k
       = components (stores h !!! data (instructions h !!! target)) !! k ∧
       (k ∈ changeBuffer (stores h' !!! data (instructions h !!! target)) ↔
        k ∈ changeBuffer (stores h !!! data (instructions h !!! target)))).
Proof.
  intros Hcs.
  destruct (transferOutput this target h) as [r h'] eqn:Hrun.
  pose proof (λ k, transferOutput_producer_values _ _ _ _ _ k Hrun)
    as Hvalues.
  rewrite transferOutput_run, Hcs in Hrun. injection Hrun as <- <-.
  eexists. split; [reflexivity|].
  simpl. split; [done|]. split; [apply length_alter|].
  split; [|split; [|split]].
  - intros d Hd. by apply list_lookup_total_alter_ne.
  - intros Hne. by apply list_lookup_total_alter_ne.
  - intros k. apply (Hvalues k).
  - intros k Hk. rewrite list_lookup_total_alter.
    case_decide as E; [|done].
    apply setComponents_other. by rewrite elem_of_elements.
Qed.

(** C10: when the dependency mapping of [T] records the keys [cs] for [P],
    and [P] and [T] each have a snapshot of their own, [P.transferOutput(T)]
    returns normally and changes the snapshot of [T] only, and there the
    keys of [cs] only.  The task, the dependency mapping and the inverted
    dependencies of [P] are as they were, as are those of every other
    instruction, [T] included; the snapshot of [P] is as it was, as is
    every data object other than the snapshot of [T]; and every key of the
    snapshot of [T] that is not in [cs] keeps its value and its place in or
    out of the change buffer. *)
Theorem transferOutput_changes_target_snapshot_only h this target cs :
  data (instructions h !!! this) ≠ data (instructions h !!! target) →
  Dictionary.getValue (toString h)
    (dependencies (instructions h !!! target)) this = Some cs →
  ∃ h', transferOutput this target h = (Returned tt, h') ∧
    instructions h' = instructions h ∧
    task (instructions h' !!! this) = task (instructions h !!! this) ∧
    dependencies (instructions h' !!! this)
      = dependencies (instructions h !!! this) ∧
    invertedDependencies (instructions h' !!! this)
      = invertedDependencies (instructions h !!! this) ∧
    data (instructions h' !!! this) = data (instructions h !!! this) ∧
    stores h' !!! data (instructions h !!! this)
      = stores h !!! data (instructions h !!! this) ∧
    (∀ d, d ≠ data (instructions h !!! target) →
       stores h' !!! d = stores h !!! d) ∧
    (∀ k, k ∉ cs →
       getComponent (stores h' !!! data (instructions h !!! target)) k
       = getComponent (stores h !!! data (instructions h !!! target)) k ∧
       components (stores h' !!! data (instructions h !!! target)) !! k
       = components (stores h !!! data (instructions h !!! target)) !! k ∧
       (k ∈ changeBuffer (stores h' !!! data (instructions h !!! target)) ↔
        k ∈ changeBuffer (stores h !!! data (instructions h !!! target)))).
Proof.
  intros Hne Hcs.
  destruct (transferOutput_frame h this target cs Hcs)
    as (h' & Hrun & Hinst & _ & Hstores & Hthis & _ & Hkeys).
  exists h'. split; [exact Hrun|]. rewrite Hinst.
  repeat (split; [done|]).
  split; [by apply Hthis|]. split; [exact Hstores|].
  intros k Hk. destruct (Hkeys k Hk) as [Hcomp Hbuf].
  split; [|by split]. unfold getComponent. by rewrite Hcomp.
Qed.


(** C9: a new instruction has no dependencies and no inverted dependencies,
    so it is eligible for execution; once a dependency is added to it, it
    no longer is. *)
Theorem new_TaskInstruction_is_eligible (t : ModelTask) (d : loc) h :
  ∃ this h', new_TaskInstruction t d h = (Returned this, h') ∧
    instructions h' !! this
      = Some {| task := t; data := d;
                dependencies := ∅; invertedDependencies := ∅ |} ∧
    dependencies (instructions h' !!! this) = ∅ ∧
    invertedDependencies (instructions h' !!! this) = ∅ ∧
    isEligibleForExecution this h' = (Returned true, h') ∧
    ∀ dependency component,
      ((addDependency this dependency component ;;
        isEligibleForExecution this) h').1 = Returned false.
Proof.
  set (i := {| task := t; data := d;
               dependencies := ∅; invertedDependencies := ∅ |}).
  exists (length (instructions h)), (with_instructions (λ l, l ++ [i]) h).
  split; [reflexivity|].
  assert (Hi : (instructions h ++ [i]) !!! length (instructions h) = i).
  { apply list_lookup_total_correct. by apply list_lookup_middle. }
  split; [by apply list_lookup_middle|].
  split; [simpl; by rewrite Hi|].
  split; [simpl; by rewrite Hi|].
  split.
  - unfold isEligibleForExecution. run. by rewrite Hi.
  - intros dependency component.
    rewrite addDependency_then, isEligibleForExecution_fst.
    rewrite addDependency_this by (simpl; rewrite length_app; simpl; lia).
    by rewrite isEmpty_setValue.
Qed.

End task_instruction.

Section processor_properties.

Implicit Types (h : Heap) (p : OutOfOrderProcessor) (t : ModelTask).

Lemma elem_of_keys {K V} (d : Dictionary K V) (j : K) :
  j ∈ Dictionary.keys d ↔ ∃ s v, d !! s = Some (j, v).
Proof.
  unfold Dictionary.keys. rewrite list_elem_of_fmap. split.
  - intros ([s [j' v]] & -> & Hin). exists s, v.
    by apply elem_of_map_to_list in Hin.
  - intros (s & v & Hs). exists (s, (j, v)). split; [done|].
    by apply elem_of_map_to_list.
Qed.

Lemma length_addDependency h this dependency component :
  length (instructions (addDependency this dependency component h).2)
  = length (instructions h).
Proof.
  rewrite addDependency_run. cbn [snd]. unfold with_instructions.
  cbn [instructions]. by rewrite !length_alter.
Qed.

Lemma addDependency_other h this dependency component i :
  i ≠ this →
  dependencies
    (instructions (addDependency this dependency component h).2 !!! i)
  = dependencies (instructions h !!! i).
Proof.
  intros Hi. rewrite addDependency_run. cbn [snd].
  unfold with_instructions. cbn [instructions].
  rewrite list_lookup_total_alter. case_decide as E.
  - destruct E as [-> _]. cbn [set_invertedDependencies dependencies].
    by rewrite list_lookup_total_alter_ne.
  - by rewrite list_lookup_total_alter_ne.
Qed.

(** A dependency on an instruction allocated earlier keeps every edge of
    the graph pointing backward. *)
Lemma addDependency_backward h this dependency component :
  backward h → dependency < this →
  backward (addDependency this dependency component h).2.
Proof.
  intros Hb Hlt i j [Hi Hj]. rewrite length_addDependency in Hi.
  destruct (decide (i = this)) as [->|Hne].
  - rewrite addDependency_this in Hj by done.
    apply elem_of_keys in Hj as (s & v & Hs).
    unfold Dictionary.setValue in Hs.
    apply lookup_insert_Some in Hs as [[_ [= <- _]] | [_ Hs]]; [done|].
    apply Hb. split; [done|]. apply elem_of_keys. eauto.
  - rewrite addDependency_other in Hj by done. apply Hb. by split.
Qed.

Lemma schedule_run t p h :
  let n := length (instructions h) in
  let h1 :=
    {| instructions :=
         instructions h
         ++ [ {| task := t; data := length (stores h);
                 dependencies := ∅; invertedDependencies := ∅ |} ];
       stores := stores h ++ [stores h !!! sharedData p] |} in
  OutOfOrderProcessor_schedule t p h
  = match metadata t with
    | None => (Thrown (TypeError "Cannot read property of null"), h1)
    | Some md =>
        match forEach (elements (readSet md)) (dependOnLastWriter p n) h1 with
        | (Returned _, h2) =>
            let index' :=
              foldr (λ key lw, <[key := n]> lw) (lastWriter p)
                    (elements (writeSet md)) in
            (Returned
               (if Dictionary.isEmpty (dependencies (instructions h2 !!! n))
                then {| sharedData := sharedData p;
                        readyPool := readyPool p ++ [n];
                        pendingPool := pendingPool p;
                        lastWriter := index' |}
                else {| sharedData := sharedData p;
                        readyPool := readyPool p;
                        pendingPool := pendingPool p ++ [n];
                        lastWriter := index' |}), h2)
        | (Thrown e, h2) => (Thrown e, h2)
        end
    end.
Proof.
  intros n h1. unfold OutOfOrderProcessor_schedule, metadataOf.
  destruct (metadata t) as [md|]; [|reflexivity].
  unfold mbind, M_bind, gets, alloc_ModelData, new_TaskInstruction,
    mret, M_ret.
  repeat match goal with
  | |- context [forEach ?l ?f ?s] =>
      progress change (forEach l f s)
        with (forEach (elements (readSet md)) (dependOnLastWriter p n) h1)
  end.
  destruct (forEach _ _ h1) as [[[]|e] h2]; reflexivity.
Qed.

Lemma forEach_dependOnLastWriter p n l :
  (∀ k j, lastWriter p !! k = Some j → j < n) →
  ∀ h, backward h →
    ∃ h', forEach l (dependOnLastWriter p n) h = (Returned tt, h') ∧
      backward h' ∧
      length (instructions h') = length (instructions h).
Proof.
  intros Hp. induction l as [|k l IH]; intros h Hb.
  - by exists h.
  - rewrite forEach_cons. unfold dependOnLastWriter at 1.
    destruct (lastWriter p !! k) as [producer|] eqn:E.
    + rewrite addDependency_returns.
      destruct (IH (addDependency n producer k h).2) as (h' & -> & Hb' & Hl).
      { apply addDependency_backward; eauto. }
      exists h'. by rewrite Hl, length_addDependency.
    + by apply IH.
Qed.

Lemma lookup_foldr_insert (l : list ModelComponent) (n : loc)
    (lw : gmap ModelComponent loc) k j :
  foldr (λ key lw, <[key := n]> lw) lw l !! k = Some j →
  j = n ∨ lw !! k = Some j.
Proof.
  induction l as [|k0 l IH]; simpl; [by right|].
  rewrite lookup_insert. case_decide; [intros [= <-]; by left | done].
Qed.

(** One call of [schedule] keeps the edges pointing backward and the
    last-writer index within the heap, whether it returns or throws. *)
Lemma schedule_invariant t p h :
  backward h → lastWriter_allocated p h →
  backward (OutOfOrderProcessor_schedule t p h).2 ∧
  lastWriter_allocated p (OutOfOrderProcessor_schedule t p h).2 ∧
  ∀ p', (OutOfOrderProcessor_schedule t p h).1 = Returned p' →
        lastWriter_allocated p' (OutOfOrderProcessor_schedule t p h).2.
Proof.
  intros Hb Hp. rewrite schedule_run. cbv zeta.
  set (n := length (instructions h)).
  set (i0 := {| task := t; data := length (stores h);
                dependencies := ∅; invertedDependencies := ∅ |}).
  set (h1 := {| instructions := instructions h ++ [i0];
                stores := stores h ++ [stores h !!! sharedData p] |}).
  assert (Hb1 : backward h1).
  { intros i j [Hi Hj]. simpl in Hi, Hj.
    rewrite length_app in Hi. simpl in Hi.
    destruct (decide (i < n)) as [Hlt|Hge].
    - rewrite lookup_total_app_l in Hj by done. apply Hb. by split.
    - assert (i = n) as -> by (unfold n in *; lia).
      unfold n in Hj. rewrite list_lookup_total_middle in Hj by done.
      simpl in Hj. unfold Dictionary.keys in Hj.
      rewrite map_to_list_empty in Hj. by apply elem_of_nil in Hj. }
  assert (Hl1 : length (instructions h1) = S n).
  { simpl. rewrite length_app. simpl. unfold n. lia. }
  assert (Hp1 : lastWriter_allocated p h1).
  { intros k j Hk. rewrite Hl1. specialize (Hp k j Hk). unfold n. lia. }
  destruct (metadata t) as [md|]; [|done].
  destruct (forEach_dependOnLastWriter p n (elements (readSet md)) Hp h1 Hb1)
    as (h2 & -> & Hb2 & Hl2).
  cbn [fst snd]. split; [done|]. split.
  - intros k j Hk. rewrite Hl2. by apply (Hp1 k j).
  - intros p' [= <-]. intros k j Hk. rewrite Hl2, Hl1.
    assert (Hk' : foldr (λ key lw, <[key := n]> lw) (lastWriter p)
                    (elements (writeSet md)) !! k = Some j)
      by by destruct (Dictionary.isEmpty _).
    apply lookup_foldr_insert in Hk' as [->|Hk']; [lia|].
    specialize (Hp k j Hk'). unfold n. lia.
Qed.

Lemma scheduleAll_invariant ts p h :
  backward h → lastWriter_allocated p h →
  backward (scheduleAll ts p h).2.
Proof.
  revert p h. induction ts as [|t ts IH]; intros p h Hb Hp; [done|].
  simpl. destruct (schedule_invariant t p h Hb Hp) as (Hb' & Hp' & Hr).
  destruct (OutOfOrderProcessor_schedule t p h) as [[p'|e] h'].
  - apply IH; [done|]. by apply Hr.
  - by apply IH.
Qed.

Lemma backward_acyclic h : backward h → acyclic h.
Proof.
  intros Hb i Hi.
  assert (Hlt : ∀ a b, tc (dependsOn h) a b → b < a).
  { induction 1 as [a b Hab | a b c Hab _ IH].
    - by apply Hb.
    - apply Hb in Hab. lia. }
  specialize (Hlt i i Hi). lia.
Qed.

(** [schedule] returns normally on every task that has metadata. *)
Lemma schedule_returns t md p h :
  metadata t = Some md → returns (OutOfOrderProcessor_schedule t p) h.
Proof.
  intros Hmd. unfold returns. rewrite schedule_run, Hmd. cbv zeta.
  generalize (elements (readSet md)). intros l.
  match goal with |- context [forEach l ?f ?h1] =>
    assert (Hf : ∃ h2, forEach l f h1 = (Returned tt, h2));
    [generalize h1 | destruct Hf as [h2 ->]; by eexists]
  end.
  induction l as [|k l IH]; intros h'; [by eexists|].
  rewrite forEach_cons. unfold dependOnLastWriter at 1.
  destruct (lastWriter p !! k); [rewrite addDependency_returns|]; apply IH.
Qed.

(** C7: whatever tasks are scheduled on a new out-of-order processor, every
    edge of the dependency graph goes from an instruction to one that was
    scheduled before it, so the graph has no cycle. *)
Theorem schedule_keeps_dependencies_acyclic (ts : list ModelTask)
    (data0 : loc) (stores0 : list ModelData) :
  let h0 := {| instructions := []; stores := stores0 |} in
  let h := (scheduleAll ts (new_OutOfOrderProcessor data0) h0).2 in
  backward h ∧ acyclic h.
Proof.
  intros h0 h.
  assert (Hb : backward h).
  { apply scheduleAll_invariant.
    - intros i j [Hi _]. simpl in Hi. lia.
    - intros k j Hk. simpl in Hk. by rewrite lookup_empty in Hk. }
  split; [done|]. by apply backward_acyclic.
Qed.

(** [schedule] throws on a task without metadata. *)
Lemma schedule_throws_without_metadata t p h :
  metadata t = None →
  (OutOfOrderProcessor_schedule t p h).1
  = Thrown (TypeError "Cannot read property of null").
Proof. intros Hmd. by rewrite schedule_run, Hmd. Qed.

End processor_properties.

Section model_properties.

Context `{TaskProcessor Processor}.

Implicit Types (m : @Model Processor) (os : list ModelObserver).
Implicit Types (C : gset ModelComponent) (ts : list ModelTask).

Lemma new_Model_observers (data : option loc) (h : Heap) :
  observers (new_Model (Processor:=Processor) data h) = [] ∧
  calls (new_Model (Processor:=Processor) data h) = [].
Proof. unfold new_Model. by destruct data. Qed.

Lemma registerObserver_all os m :
  ∃ m', forEach os registerObserver m = (Returned tt, m') ∧
    observers m' = observers m ++ os ∧
    tasks m' = tasks m ∧ heap m' = heap m ∧ calls m' = calls m ∧
    wellDefinedData m' = wellDefinedData m.
Proof.
  revert m. induction os as [|o os IH]; intros m.
  - exists m. by rewrite app_nil_r.
  - rewrite forEach_cons.
    change (registerObserver o m)
      with (Returned tt, with_observers (observers m ++ [o]) m).
    destruct (IH (with_observers (observers m ++ [o]) m))
      as (m' & -> & Ho & ? & ? & ? & ?).
    exists m'. simpl in *. by rewrite Ho, <- app_assoc.
Qed.

Lemma tasks_schedule_run t m p' h' :
  schedule t (tasks m) (heap m) = (Returned p', h') →
  tasks_schedule t m
  = (Returned tt,
     {| tasks := p'; observers := observers m;
        wellDefinedData := wellDefinedData m; heap := h';
        calls := calls m ++ [ScheduleCalled t] |}).
Proof.
  intros E. unfold tasks_schedule, record, on_heap. run. by rewrite E.
Qed.

Lemma forEach_tasks_schedule ts :
  (∀ t, t ∈ ts → ∀ p h, returns (schedule t p) h) →
  ∀ m, ∃ m', forEach ts tasks_schedule m = (Returned tt, m') ∧
    calls m' = calls m ++ (ScheduleCalled <$> ts) ∧
    (tasks m', heap m') = scheduled ts (tasks m) (heap m) ∧
    observers m' = observers m ∧
    wellDefinedData m' = wellDefinedData m.
Proof.
  induction ts as [|t ts IH]; intros Hret m.
  - exists m. simpl. by rewrite app_nil_r.
  - destruct (Hret t (list_elem_of_here _ _) (tasks m) (heap m)) as [p' Hp].
    destruct (schedule t (tasks m) (heap m)) as [r h'] eqn:E.
    simpl in Hp; subst r.
    rewrite forEach_cons, (tasks_schedule_run _ _ _ _ E).
    edestruct IH as (m' & -> & Hc & Hs & Ho & Hw).
    { intros t' Ht'. apply Hret. by apply list_elem_of_further. }
    exists m'. simpl in *. rewrite E. by rewrite Hc, <- app_assoc.
Qed.

Lemma scheduled_app ts1 ts2 p h :
  (∀ t, t ∈ ts1 → ∀ p h, returns (schedule t p) h) →
  scheduled (ts1 ++ ts2) p h
  = scheduled ts2 (scheduled ts1 p h).1
      (scheduled ts1 p h).2.
Proof.
  revert p h. induction ts1 as [|t ts1 IH]; intros p h Hret; simpl; [done|].
  destruct (Hret t (list_elem_of_here _ _) p h) as [p' Hp].
  destruct (schedule t p h) as [r h'] eqn:E. simpl in Hp; subst r.
  apply IH. intros t' Ht'. apply Hret. by apply list_elem_of_further.
Qed.

Lemma forEach_observers C os :
  (∀ o t, o ∈ os → t ∈ o C → ∀ p h, returns (schedule t p) h) →
  ∀ m, ∃ m',
    forEach os
      (λ element, record (ObserverCalled element C) ;;
                  forEach (element C) tasks_schedule) m
    = (Returned tt, m') ∧
    calls m' = calls m ++ callsFor C os ∧
    (tasks m', heap m')
      = scheduled (tasksFor C os) (tasks m) (heap m) ∧
    observers m' = observers m ∧
    wellDefinedData m' = wellDefinedData m.
Proof.
  induction os as [|o os IH]; intros Hret m.
  - exists m. simpl. by rewrite app_nil_r.
  - rewrite forEach_cons.
    set (m0 := {| tasks := tasks m; observers := observers m;
                  wellDefinedData := wellDefinedData m; heap := heap m;
                  calls := calls m ++ [ObserverCalled o C] |}).
    change ((record (ObserverCalled o C) ;;
             forEach (o C) tasks_schedule) m)
      with (forEach (o C) tasks_schedule m0).
    destruct (forEach_tasks_schedule (o C)) with (m := m0)
      as (m1 & -> & Hc1 & Hs1 & Ho1 & Hw1).
    { intros t Ht. apply (Hret o t); [apply list_elem_of_here | done]. }
    destruct IH with (m := m1) as (m' & -> & Hc & Hs & Ho & Hw).
    { intros o' t Ho' Ht. apply (Hret o' t); [|done].
      by apply list_elem_of_further. }
    exists m'. split; [done|]. split; [|split; [|split]].
    + rewrite Hc, Hc1. unfold callsFor. simpl.
      by rewrite <- !app_assoc.
    + rewrite Hs. unfold tasksFor. simpl.
      rewrite scheduled_app.
      * subst m0. simpl in Hs1. by rewrite <- Hs1.
      * intros t Ht. apply (Hret o t); [apply list_elem_of_here | done].
    + by rewrite Ho, Ho1.
    + by rewrite Hw, Hw1.
Qed.

Lemma observers_called_once C os :
  List.filter isObserverCalled (callsFor C os)
  = (λ o, ObserverCalled o C) <$> os.
Proof.
  induction os as [|o os IH]; [done|].
  change (callsFor C (o :: os))
    with (ObserverCalled o C :: ((ScheduleCalled <$> o C) ++ callsFor C os)).
  cbn [List.filter isObserverCalled fmap list_fmap]. f_equal.
  rewrite List.filter_app, IH.
  assert (List.filter isObserverCalled (ScheduleCalled <$> o C) = []) as ->;
    [|done].
  by induction (o C) as [|t ts IHts].
Qed.

(** C3: when a task completes, the model drains the change buffer of its
    data store and calls the registered observers with the drained set [C],
    each one once and in the order they were registered in; the tasks an
    observer returns are scheduled on the processor of the model before the
    next observer is called.  ([schedule] is the method of the processor,
    which is required to return normally on these tasks.) *)
Theorem notifyObservers_in_registration_order m os (completed : ModelTask) :
  let m1 := (forEach os registerObserver m).2 in
  let C := changeBuffer (stores (heap m1) !!! wellDefinedData m1) in
  (∀ o t, o ∈ observers m1 → t ∈ o C → ∀ p h, returns (schedule t p) h) →
  observers m1 = observers m ++ os ∧
  ∃ m2, onTaskCompleted completed m1 = (Returned tt, m2) ∧
    calls m2 = calls m1 ++ callsFor C (observers m1) ∧
    List.filter isObserverCalled (callsFor C (observers m1))
      = (λ o, ObserverCalled o C) <$> observers m1 ∧
    (tasks m2, heap m2)
      = scheduled (tasksFor C (observers m1)) (tasks m1)
          (drained m1) ∧
    observers m2 = observers m1.
Proof.
  intros m1 C Hret.
  destruct (registerObserver_all os m) as (m1' & E & Ho & _).
  assert (Hm : m1 = m1') by (unfold m1; by rewrite E).
  clearbody m1. subst m1'. split; [done|].
  change (onTaskCompleted completed m1)
    with (forEach (observers m1)
            (λ element, record (ObserverCalled element C) ;;
                        forEach (element C) tasks_schedule)
            (with_heap (drained m1) m1)).
  destruct (forEach_observers C (observers m1) Hret
              (with_heap (drained m1) m1))
    as (m2 & -> & Hc & Hs & Ho2 & _).
  exists m2. split; [done|]. split; [done|].
  split; [apply observers_called_once|]. by split.
Qed.

(** C8: [createTask] returns a task made of the function and of the
    metadata built from the two sets and the priority, and changes nothing:
    the processor, the observers, the heap with the data store and the
    calls made are what they were, so nothing was scheduled. *)
Theorem createTask_schedules_nothing (run_task : Effect)
    (reads writes : gset ModelComponent + list ModelComponent)
    (prio : option Z) m :
  ∃ t, createTask run_task reads writes prio m = (Returned t, m) ∧
    t = OpaqueTask run_task (new_ModelTaskMetadata reads writes prio) ∧
    execute t = run_task ∧
    metadata t
      = Some {| readSet := toSet reads;
                writeSet := toSet writes;
                priority := default 0%Z prio |} ∧
    ∀ p h, returns (OutOfOrderProcessor_schedule t p) h.
Proof.
  eexists. repeat split. intros p h. by eapply schedule_returns.
Qed.

End model_properties.

Section fileDAO_properties.

Context (new_Component : Obj).
Context (setPart : string → any → Obj → Obj).
Context (getPart : string → Obj → any).

(** C2: the tasks [FileDAO] schedules are built with [null] in the place of
    the metadata, so they have no read set, no write set and no priority, and
    [TaskInstruction.getPriority] throws on an instruction that holds one. *)
Theorem persistence_tasks_have_null_metadata (result : any)
    (io : IOFacilitator) (module : FileModule) :
  metadata (LoadTask new_Component setPart result module) = None ∧
  metadata (SaveTask getPart io module) = None ∧
  ∀ (d : loc) (h : Heap),
    ((instruction ←
        new_TaskInstruction (LoadTask new_Component setPart result module) d;
      getPriority instruction) h).1
    = Thrown (TypeError "Cannot read property 'priority' of null") ∧
    ((instruction ←
        new_TaskInstruction (SaveTask getPart io module) d;
      getPriority instruction) h).1
    = Thrown (TypeError "Cannot read property 'priority' of null").
Proof.
  split; [done|]. split; [done|]. intros d h.
  unfold mbind, M_bind, new_TaskInstruction, getPriority, field, gets.
  unfold mbind, M_bind. cbn [with_instructions instructions].
  by rewrite !list_lookup_total_middle.
Qed.

End fileDAO_properties.

Section task_instruction_calls.

Implicit Types (h : Heap) (this target dependency : loc).
Implicit Types (component : ModelComponent) (ops : list Operation).

Lemma heap_eq h1 h2 :
  stores h1 = stores h2 →
  length (instructions h1) = length (instructions h2) →
  (∀ i, i < length (instructions h1) →
        instructions h1 !!! i = instructions h2 !!! i) →
  h1 = h2.
Proof.
  destruct h1 as [l1 s1], h2 as [l2 s2]. simpl. intros -> Hlen Hi.
  f_equal. apply (list_eq_same_length _ _ (length l1)); [done|done|].
  intros i x y Hlt Hx Hy.
  apply list_lookup_total_correct in Hx, Hy. rewrite <- Hx, <- Hy.
  by apply Hi.
Qed.

Lemma TaskInstruction_eq (a b : TaskInstruction) :
  task a = task b → data a = data b →
  dependencies a = dependencies b →
  invertedDependencies a = invertedDependencies b → a = b.
Proof. destruct a, b. simpl. by intros -> -> -> ->. Qed.

Lemma data_alter (f : TaskInstruction → TaskInstruction)
    (l : list TaskInstruction) i j :
  (∀ x, data (f x) = data x) → data (alter f i l !!! j) = data (l !!! j).
Proof.
  intros Hf. rewrite list_lookup_total_alter.
  case_decide as Hd; [destruct Hd as [-> _]; apply Hf | done].
Qed.

Lemma stores_addDependency h this dependency component :
  stores (addDependency this dependency component h).2 = stores h.
Proof. by rewrite addDependency_run. Qed.

Lemma task_addDependency h this dependency component i :
  task (instructions (addDependency this dependency component h).2 !!! i)
  = task (instructions h !!! i).
Proof.
  rewrite addDependency_run. cbn [snd]. unfold with_instructions.
  cbn [instructions]. by rewrite !task_alter.
Qed.

Lemma data_addDependency h this dependency component i :
  data (instructions (addDependency this dependency component h).2 !!! i)
  = data (instructions h !!! i).
Proof.
  rewrite addDependency_run. cbn [snd]. unfold with_instructions.
  cbn [instructions]. by rewrite !data_alter.
Qed.

Lemma toString_addDependency h this dependency component i :
  toString (addDependency this dependency component h).2 i = toString h i.
Proof. unfold toString. by rewrite task_addDependency. Qed.

Lemma dependencies_addDependency h this dependency component i :
  dependencies
    (instructions (addDependency this dependency component h).2 !!! i)
  = if decide (i = this ∧ this < length (instructions h))
    then Dictionary.setValue (toString h) dependency
           ({[component]} ∪
            default ∅ (Dictionary.getValue (toString h)
                         (dependencies (instructions h !!! this)) dependency))
           (dependencies (instructions h !!! this))
    else dependencies (instructions h !!! i).
Proof.
  case_decide as E.
  - destruct E as [-> Hlt]. by apply addDependency_this.
  - destruct (decide (i = this)) as [->|Hne];
      [|by apply addDependency_other].
    assert (Hge : length (instructions h) ≤ this) by lia.
    rewrite !list_lookup_total_alt.
    rewrite (lookup_ge_None_2 (instructions h)) by done.
    rewrite lookup_ge_None_2; [done|]. by rewrite length_addDependency.
Qed.

Lemma invertedDependencies_alter_set_dependencies d
    (l : list TaskInstruction) i j :
  invertedDependencies (alter (set_dependencies d) i l !!! j)
  = invertedDependencies (l !!! j).
Proof.
  rewrite list_lookup_total_alter.
  by case_decide as E; [destruct E as [-> _]|].
Qed.

Lemma invertedDependencies_addDependency h this dependency component i :
  invertedDependencies
    (instructions (addDependency this dependency component h).2 !!! i)
  = if decide (i = dependency ∧ dependency < length (instructions h))
    then CSet.add (toString h) this
           (invertedDependencies (instructions h !!! dependency))
    else invertedDependencies (instructions h !!! i).
Proof.
  rewrite addDependency_run. cbn [snd]. unfold with_instructions.
  cbn [instructions].
  rewrite (list_lookup_total_alter _ _ dependency i), length_alter.
  destruct (decide (i = dependency ∧ dependency < length (instructions h)))
    as [[-> Hlt]|Hn].
  - rewrite decide_True by done.
    cbn [set_invertedDependencies invertedDependencies].
    by rewrite invertedDependencies_alter_set_dependencies.
  - rewrite decide_False by naive_solver.
    by rewrite invertedDependencies_alter_set_dependencies.
Qed.

(** X1: [addDependency] touches nothing but the dependency mapping of the
    instruction it is called on and the inverted dependencies of the
    producer: no instruction is added, every instruction keeps its task, its
    data and its key, every other dependency mapping and every other set of
    inverted dependencies is what it was, and so is every data object. *)
Theorem addDependency_frame h this dependency component :
  stores (addDependency this dependency component h).2 = stores h ∧
  length (instructions (addDependency this dependency component h).2)
    = length (instructions h) ∧
  ∀ i,
    task (instructions (addDependency this dependency component h).2 !!! i)
      = task (instructions h !!! i) ∧
    data (instructions (addDependency this dependency component h).2 !!! i)
      = data (instructions h !!! i) ∧
    toString (addDependency this dependency component h).2 i
      = toString h i ∧
    (i ≠ this →
     dependencies
       (instructions (addDependency this dependency component h).2 !!! i)
     = dependencies (instructions h !!! i)) ∧
    (i ≠ dependency →
     invertedDependencies
       (instructions (addDependency this dependency component h).2 !!! i)
     = invertedDependencies (instructions h !!! i)).
Proof.
  split; [apply stores_addDependency|].
  split; [apply length_addDependency|]. intros i.
  split; [apply task_addDependency|].
  split; [apply data_addDependency|].
  split; [apply toString_addDependency|]. split.
  - intros Hne. by apply addDependency_other.
  - intros Hne. rewrite invertedDependencies_addDependency.
    case_decide as E; [by destruct E|done].
Qed.

Lemma add_add {K} (toStr : K → string) element (s : CSet K) :
  CSet.add toStr element (CSet.add toStr element s)
  = CSet.add toStr element s.
Proof.
  unfold CSet.add at 1. by rewrite contains_add.
Qed.

Lemma getValue_ext {K V} (toStr toStr' : K → string) (d : Dictionary K V)
    key :
  toStr' key = toStr key →
  Dictionary.getValue toStr' d key = Dictionary.getValue toStr d key.
Proof. unfold Dictionary.getValue. by intros ->. Qed.

Lemma setValue_ext {K V} (toStr toStr' : K → string) (d : Dictionary K V)
    key value :
  toStr' key = toStr key →
  Dictionary.setValue toStr' key value d
  = Dictionary.setValue toStr key value d.
Proof. unfold Dictionary.setValue. by intros ->. Qed.

(** X2: declaring the same dependency twice is the same as declaring it
    once. *)
Theorem addDependency_idempotent h this dependency component :
  (addDependency this dependency component ;;
   addDependency this dependency component) h
  = addDependency this dependency component h.
Proof.
  rewrite addDependency_then.
  set (h1 := (addDependency this dependency component h).2).
  rewrite (addDependency_returns h1), (addDependency_returns h).
  fold h1. f_equal. apply heap_eq.
  - apply stores_addDependency.
  - apply length_addDependency.
  - intros i _. apply TaskInstruction_eq.
    + apply task_addDependency.
    + apply data_addDependency.
    + rewrite dependencies_addDependency.
      case_decide as E; [|done]. destruct E as [-> Hlt].
      unfold h1 in Hlt. rewrite length_addDependency in Hlt.
      rewrite (setValue_ext (toString h))
        by apply toString_addDependency.
      rewrite (getValue_ext (toString h))
        by apply toString_addDependency.
      unfold h1. rewrite addDependency_this by done.
      rewrite getValue_setValue. cbn [default].
      unfold Dictionary.setValue. rewrite insert_insert_eq.
      do 2 f_equal. set_solver.
    + rewrite invertedDependencies_addDependency.
      case_decide as E; [|done]. destruct E as [-> Hlt].
      unfold h1 in Hlt. rewrite length_addDependency in Hlt.
      rewrite (add_ext (toString h)) by apply toString_addDependency.
      unfold h1. rewrite invertedDependencies_addDependency.
      rewrite decide_True by done. apply add_add.
Qed.

(** X3: the dependencies of an instruction can be declared in any order:
    two [addDependency] calls on it commute when they name the same producer
    or producers filed under different keys. *)
Theorem addDependency_commute h this P1 P2 k1 k2 :
  P1 = P2 ∨ toString h P1 ≠ toString h P2 →
  (addDependency this P1 k1 ;; addDependency this P2 k2) h
  = (addDependency this P2 k2 ;; addDependency this P1 k1) h.
Proof.
  intros Hkeys. rewrite !addDependency_then.
  rewrite (addDependency_returns (addDependency this P1 k1 h).2).
  rewrite (addDependency_returns (addDependency this P2 k2 h).2).
  f_equal. apply heap_eq.
  - by rewrite !stores_addDependency.
  - by rewrite !length_addDependency.
  - intros i _. apply TaskInstruction_eq.
    + by rewrite !task_addDependency.
    + by rewrite !data_addDependency.
    + rewrite !dependencies_addDependency, !length_addDependency.
      case_decide as E; [|done]. destruct E as [-> Hlt].
      rewrite !decide_True by done.
      rewrite !(setValue_ext (toString h) (toString (addDependency _ _ _ h).2))
        by apply toString_addDependency.
      rewrite !(getValue_ext (toString h) (toString (addDependency _ _ _ h).2))
        by apply toString_addDependency.
      unfold Dictionary.getValue, Dictionary.setValue.
      destruct Hkeys as [->|Hne].
      * rewrite !lookup_insert_eq, !insert_insert_eq. cbn [fmap option_fmap
          option_map snd default]. do 2 f_equal. set_solver.
      * rewrite !lookup_insert_ne by done.
        by rewrite insert_insert_ne.
    + rewrite !invertedDependencies_addDependency, !length_addDependency.
      rewrite ?(add_ext (toString h) (toString (addDependency _ _ _ h).2))
        by apply toString_addDependency.
      repeat case_decide; destruct_and?; simplify_eq; try done;
        naive_solver.
Qed.

(** X4: the dependency mapping cannot tell apart two producers whose tasks
    have the same index.  Once an instruction depends on one of them, the
    other finds the same entry: its [transferOutput] to that instruction
    returns normally, although no dependency on it was declared. *)
Theorem same_index_producers_are_conflated h this P1 P2 component :
  this < length (instructions h) →
  index (task (instructions h !!! P1)) = index (task (instructions h !!! P2)) →
  ∃ h' cs,
    addDependency this P1 component h = (Returned tt, h') ∧
    Dictionary.getValue (toString h')
      (dependencies (instructions h' !!! this)) P2 = Some cs ∧
    component ∈ cs ∧
    (transferOutput P2 this h').1 = Returned tt.
Proof.
  intros Hlt Hidx.
  assert (Hstr : toString h P2 = toString h P1)
    by (unfold toString; by rewrite Hidx).
  eexists _, _. split; [apply addDependency_returns|].
  assert (Hget : Dictionary.getValue
            (toString (addDependency this P1 component h).2)
            (dependencies
               (instructions (addDependency this P1 component h).2 !!! this))
            P2
          = Some ({[component]} ∪
                  default ∅ (Dictionary.getValue (toString h)
                               (dependencies (instructions h !!! this)) P1))).
  { rewrite (getValue_ext (toString h)) by apply toString_addDependency.
    rewrite addDependency_this by done.
    unfold Dictionary.getValue, Dictionary.setValue.
    by rewrite Hstr, lookup_insert_eq. }
  split; [exact Hget|]. split; [set_solver|].
  by rewrite transferOutput_run, Hget.
Qed.

Lemma setComponents_components value l (d : ModelData) k :
  components (setComponents value l d) !! k
  = if decide (k ∈ l) then Some (value k) else components d !! k.
Proof.
  unfold setComponents. revert d.
  induction l as [|k0 l IH]; intros d; simpl.
  - by destruct (decide (k ∈ [])) as [E%elem_of_nil|].
  - rewrite IH. simpl. rewrite lookup_insert.
    repeat case_decide; subst; try done; set_solver.
Qed.

Lemma ModelData_eq (a b : ModelData) :
  components a = components b → changeBuffer a = changeBuffer b → a = b.
Proof. destruct a, b. simpl. by intros -> ->. Qed.

Lemma setComponents_twice value value' l (d : ModelData) :
  (∀ k, k ∈ l → value' k = value k) →
  setComponents value' l (setComponents value l d) = setComponents value l d.
Proof.
  intros Hv. apply ModelData_eq.
  - apply map_eq. intros k. rewrite !setComponents_components.
    case_decide; [by rewrite Hv | done].
  - rewrite !changeBuffer_setComponents. set_solver.
Qed.

(** X5: transferring the output of a producer to the same target a second
    time changes nothing, whether the call throws or returns and also when
    the two instructions share their data. *)
Theorem transferOutput_idempotent h this target :
  (transferOutput this target ;; transferOutput this target) h
  = transferOutput this target h.
Proof.
  unfold mbind, M_bind.
  destruct (transferOutput this target h) as [[[]|e] h1] eqn:Hrun; [|done].
  pose proof (λ k, transferOutput_producer_values _ _ _ _ _ k Hrun)
    as Hvalues.
  rewrite transferOutput_run in Hrun.
  destruct (Dictionary.getValue (toString h)
              (dependencies (instructions h !!! target)) this)
    as [cs|] eqn:Hcs; [|done].
  injection Hrun as <-.
  set (h1 := with_stores _ h) in *.
  assert (Hcs1 : Dictionary.getValue (toString h1)
                   (dependencies (instructions h1 !!! target)) this = Some cs)
    by exact Hcs.
  rewrite transferOutput_run, Hcs1.
  f_equal. unfold h1, with_stores. cbn [instructions stores]. f_equal.
  rewrite alter_alter. apply list_alter_ext; [|done].
  intros d _. cbn [compose]. apply setComponents_twice.
  intros k _. apply Hvalues.
Qed.

Lemma dependencies_outside h i :
  length (instructions h) ≤ i → dependencies (instructions h !!! i) = ∅.
Proof.
  intros Hge. rewrite list_lookup_total_alt.
  by rewrite lookup_ge_None_2.
Qed.

Lemma getValue_Some_allocated h (toStr : loc → string) this P cs :
  Dictionary.getValue toStr (dependencies (instructions h !!! this)) P
    = Some cs →
  this < length (instructions h).
Proof.
  intros Hcs. destruct (decide (this < length (instructions h))); [done|].
  rewrite dependencies_outside in Hcs by lia.
  unfold Dictionary.getValue in Hcs. by rewrite lookup_empty in Hcs.
Qed.

Lemma perform_NewTaskInstruction t d h :
  (perform (NewTaskInstruction t d) h).2
  = with_instructions
      (λ l, l ++ [ {| task := t; data := d;
                      dependencies := ∅; invertedDependencies := ∅ |} ]) h.
Proof. reflexivity. Qed.

(** One call keeps what the dependency mapping of an instruction records
    for a producer, possibly with more keys. *)
Lemma perform_keeps_dependencies op h this P cs :
  P < length (instructions h) →
  Dictionary.getValue (toString h)
    (dependencies (instructions h !!! this)) P = Some cs →
  P < length (instructions (perform op h).2) ∧
  ∃ cs', Dictionary.getValue (toString (perform op h).2)
           (dependencies (instructions (perform op h).2 !!! this)) P
         = Some cs' ∧ cs ⊆ cs'.
Proof.
  intros HP Hcs.
  pose proof (getValue_Some_allocated _ _ _ _ _ Hcs) as Hthis.
  destruct op as [t d|t d c|p t].
  - rewrite perform_NewTaskInstruction.
    rewrite (getValue_ext (toString h)).
    + unfold with_instructions. cbn [instructions]. rewrite length_app.
      rewrite lookup_total_app_l by done.
      split; [lia|]. by exists cs.
    + unfold with_instructions, toString. cbn [instructions].
      by rewrite lookup_total_app_l.
  - cbn [perform]. rewrite length_addDependency. split; [done|].
    rewrite (getValue_ext (toString h)) by apply toString_addDependency.
    rewrite dependencies_addDependency. case_decide as E.
    + destruct E as [-> _].
      unfold Dictionary.getValue, Dictionary.setValue in *.
      destruct (decide (toString h d = toString h P)) as [Heq|Hne].
      * rewrite Heq, lookup_insert_eq, Hcs. eexists. split; [done|].
        set_solver.
      * rewrite lookup_insert_ne by done. by exists cs.
    + by exists cs.
  - cbn [perform].
    destruct (transferOutput p t h) as [r h'] eqn:Hrun.
    apply transferOutput_instructions in Hrun. cbn [snd].
    unfold toString. rewrite Hrun. split; [done|]. by exists cs.
Qed.

(** X6: no sequence of [new TaskInstruction], [addDependency] and
    [transferOutput] calls takes a dependency away.  What the dependency
    mapping of an instruction records for a producer stays recorded, with at
    least the same keys, and the instruction stays not eligible. *)
Theorem dependencies_are_never_removed ops h this P cs :
  P < length (instructions h) →
  Dictionary.getValue (toString h)
    (dependencies (instructions h !!! this)) P = Some cs →
  ∃ cs',
    Dictionary.getValue (toString (performAll ops h))
      (dependencies (instructions (performAll ops h) !!! this)) P
      = Some cs' ∧
    cs ⊆ cs' ∧
    (isEligibleForExecution this (performAll ops h)).1 = Returned false.
Proof.
  revert h cs. induction ops as [|op ops IH]; intros h cs HP Hcs.
  - exists cs. split; [done|]. split; [done|].
    rewrite isEligibleForExecution_fst. f_equal.
    apply not_true_is_false. rewrite isEmpty_true_iff. intros E.
    cbn [performAll foldl] in E. unfold Dictionary.getValue in Hcs.
    by rewrite E, lookup_empty in Hcs.
  - destruct (perform_keeps_dependencies op h this P cs HP Hcs)
      as (HP' & cs1 & Hcs1 & Hsub).
    destruct (IH _ _ HP' Hcs1) as (cs' & Hcs' & Hsub' & Hel).
    exists cs'. split; [exact Hcs'|]. split; [set_solver | exact Hel].
Qed.

Lemma contains_add_mono {K} (toStr : K → string) x y (s : CSet K) :
  CSet.contains toStr s y = true →
  CSet.contains toStr (CSet.add toStr x s) y = true.
Proof.
  intros Hy. unfold CSet.add.
  destruct (CSet.contains toStr s x); [done|].
  unfold CSet.contains, Dictionary.containsKey, Dictionary.getValue,
    Dictionary.setValue in *.
  apply bool_decide_eq_true. apply bool_decide_eq_true in Hy.
  rewrite lookup_insert. by case_decide.
Qed.

Lemma contains_ext {K} (toStr toStr' : K → string) (s : CSet K) x :
  toStr' x = toStr x →
  CSet.contains toStr' s x = CSet.contains toStr s x.
Proof.
  unfold CSet.contains, Dictionary.containsKey, Dictionary.getValue.
  by intros ->.
Qed.

Lemma mirrored_instructions h h' :
  instructions h' = instructions h → mirrored h → mirrored h'.
Proof.
  intros E Hm i j [Hi Hj]. rewrite E in Hi, Hj |- *.
  destruct (Hm i j) as [Hlt Hc]; [by split|]. split; [done|].
  rewrite <- Hc. apply contains_ext. unfold toString. by rewrite E.
Qed.

(** One well-addressed call keeps the inverted dependencies in step with
    the dependencies. *)
Lemma perform_mirrored op h :
  well_addressed (length (instructions h)) [op] →
  mirrored h → mirrored (perform op h).2.
Proof.
  destruct op as [t d|t d c|p t]; cbn [well_addressed].
  - intros _ Hm i j [Hi Hj]. rewrite perform_NewTaskInstruction in *.
    unfold with_instructions in *. cbn [instructions] in *.
    rewrite length_app in *. cbn [length] in *.
    destruct (decide (i < length (instructions h))) as [Hlt|Hge].
    + rewrite lookup_total_app_l in Hj by done.
      destruct (Hm i j) as [Hj' Hc]; [by split|]. split; [lia|].
      rewrite lookup_total_app_l by done. rewrite <- Hc.
      apply contains_ext. unfold toString. cbn [instructions].
      by rewrite lookup_total_app_l.
    + assert (i = length (instructions h)) as -> by lia.
      rewrite list_lookup_total_middle in Hj by done.
      cbn [dependencies] in Hj. unfold Dictionary.keys in Hj.
      rewrite map_to_list_empty in Hj. by apply elem_of_nil in Hj.
  - cbn [perform]. intros (Ht & Hd & _) Hm i j [Hi Hj].
    rewrite length_addDependency in *.
    rewrite (contains_ext (toString h)) by apply toString_addDependency.
    rewrite invertedDependencies_addDependency.
    rewrite dependencies_addDependency in Hj.
    assert (Hold : dependsOn h i j →
              j < length (instructions h) ∧
              CSet.contains (toString h)
                (if decide (j = d ∧ d < length (instructions h))
                 then CSet.add (toString h) t
                        (invertedDependencies (instructions h !!! d))
                 else invertedDependencies (instructions h !!! j)) i = true).
    { intros Hij. destruct (Hm i j Hij) as [Hlt Hc]. split; [done|].
      destruct (decide (j = d ∧ d < length (instructions h)))
        as [[-> _]|_]; [|done].
      by apply contains_add_mono. }
    destruct (decide (i = t ∧ t < length (instructions h)))
      as [[-> _]|_]; [|by apply Hold].
    apply elem_of_keys in Hj as (s & v & Hs).
    unfold Dictionary.setValue in Hs.
    apply lookup_insert_Some in Hs as [[_ [= <- _]] | [_ Hs]].
    + split; [done|]. rewrite decide_True by done. apply contains_add.
    + apply Hold. split; [done|]. apply elem_of_keys. eauto.
  - cbn [perform]. intros _ Hm.
    destruct (transferOutput p t h) as [r h'] eqn:Hrun.
    apply transferOutput_instructions in Hrun.
    by apply (mirrored_instructions h).
Qed.

Lemma length_perform op h :
  length (instructions (perform op h).2)
  = match op with
    | NewTaskInstruction _ _ => S (length (instructions h))
    | _ => length (instructions h)
    end.
Proof.
  destruct op as [t d|t d c|p t].
  - rewrite perform_NewTaskInstruction. unfold with_instructions.
    cbn [instructions]. rewrite length_app. simpl. lia.
  - apply length_addDependency.
  - cbn [perform]. destruct (transferOutput p t h) as [r h'] eqn:Hrun.
    apply transferOutput_instructions in Hrun. cbn [snd]. by rewrite Hrun.
Qed.

Lemma performAll_mirrored ops h :
  well_addressed (length (instructions h)) ops →
  mirrored h → mirrored (performAll ops h).
Proof.
  revert h. induction ops as [|op ops IH]; intros h Hw Hm; [done|].
  cbn [performAll foldl]. apply IH.
  - rewrite length_perform. by destruct op; cbn [well_addressed] in Hw;
      destruct_and?.
  - apply perform_mirrored; [|done].
    by destruct op; cbn [well_addressed] in *; destruct_and?.
Qed.

(** X7: the inverted dependencies mirror the dependencies.  After any
    sequence of constructor, [addDependency] and [transferOutput] calls on
    instructions that exist, starting without instructions, every
    instruction that another one depends on has that one among its inverted
    dependencies. *)
Theorem dependencies_are_mirrored ops (stores0 : list ModelData) :
  well_addressed 0 ops →
  mirrored (performAll ops {| instructions := []; stores := stores0 |}).
Proof.
  intros Hw. apply performAll_mirrored; [done|].
  intros i j [Hi _]. simpl in Hi. lia.
Qed.

(** X8: the task, the data, the key and the priority of an instruction never
    change: they are the same after any sequence of constructor,
    [addDependency] and [transferOutput] calls. *)
Theorem instruction_identity_is_stable ops h i :
  i < length (instructions h) →
  task (instructions (performAll ops h) !!! i) = task (instructions h !!! i) ∧
  data (instructions (performAll ops h) !!! i) = data (instructions h !!! i) ∧
  toString (performAll ops h) i = toString h i ∧
  (getPriority i (performAll ops h)).1 = (getPriority i h).1.
Proof.
  intros Hi.
  assert (Hfields :
    task (instructions (performAll ops h) !!! i) = task (instructions h !!! i) ∧
    data (instructions (performAll ops h) !!! i) = data (instructions h !!! i)).
  { revert h Hi. induction ops as [|op ops IH]; intros h Hi; [done|].
    cbn [performAll foldl].
    assert (Hop :
      task (instructions (perform op h).2 !!! i) = task (instructions h !!! i) ∧
      data (instructions (perform op h).2 !!! i) = data (instructions h !!! i)).
    { destruct op as [t d|t d c|p t].
      - rewrite perform_NewTaskInstruction. unfold with_instructions.
        cbn [instructions]. by rewrite lookup_total_app_l.
      - cbn [perform]. by rewrite task_addDependency, data_addDependency.
      - cbn [perform]. destruct (transferOutput p t h) as [r h'] eqn:Hrun.
        apply transferOutput_instructions in Hrun. cbn [snd].
        by rewrite Hrun. }
    destruct Hop as [<- <-]. apply IH.
    rewrite length_perform. destruct op; lia. }
  destruct Hfields as [Ht Hd]. split; [done|]. split; [done|].
  split; [unfold toString; by rewrite Ht|].
  unfold getPriority, field, gets, mbind, M_bind. rewrite Ht.
  by destruct (metadata (task (instructions h !!! i))).
Qed.

End task_instruction_calls.

Section model_exceptions.

Context `{TaskProcessor Processor}.

Implicit Types (m : @Model Processor) (os : list ModelObserver).
Implicit Types (C : gset ModelComponent) (ts : list ModelTask).

Lemma forEach_app {S A} (l1 l2 : list A) (f : A → M S unit) s :
  forEach (l1 ++ l2) f s
  = match forEach l1 f s with
    | (Returned _, s') => forEach l2 f s'
    | (Thrown e, s') => (Thrown e, s')
    end.
Proof.
  revert s. induction l1 as [|x l1 IH]; intros s; [done|].
  cbn [app]. rewrite !forEach_cons.
  destruct (f x s) as [[[]|e] s']; [apply IH | done].
Qed.

Lemma tasks_schedule_throws t m e h' :
  schedule t (tasks m) (heap m) = (Thrown e, h') →
  tasks_schedule t m
  = (Thrown e,
     {| tasks := tasks m; observers := observers m;
        wellDefinedData := wellDefinedData m; heap := h';
        calls := calls m ++ [ScheduleCalled t] |}).
Proof.
  intros E. unfold tasks_schedule, record, on_heap. run. by rewrite E.
Qed.

(** X9: an exception thrown by [schedule] ends the notification.  The
    observers before the one whose task could not be scheduled were called
    and their tasks scheduled, that observer was called and its earlier
    tasks scheduled, and nothing else happens: its later tasks are not
    scheduled and the observers registered after it are not called. *)
Theorem notifyObservers_stops_at_exception C m os1 o os2 ts1 t ts2 e :
  observers m = os1 ++ o :: os2 →
  o C = ts1 ++ t :: ts2 →
  (∀ t', t' ∈ tasksFor C os1 ++ ts1 → ∀ p h, returns (schedule t' p) h) →
  (∀ p h, (schedule t p h).1 = Thrown e) →
  ∃ m', notifyObservers C m = (Thrown e, m') ∧
    calls m'
    = calls m ++ callsFor C os1
      ++ ObserverCalled o C :: (ScheduleCalled <$> ts1)
      ++ [ScheduleCalled t] ∧
    tasks m' = (scheduled (tasksFor C os1 ++ ts1) (tasks m) (heap m)).1 ∧
    observers m' = observers m.
Proof.
  intros Hos Ho Hret Hthrow.
  change (notifyObservers C m)
    with (forEach (observers m)
            (λ element, record (ObserverCalled element C) ;;
                        forEach (element C) tasks_schedule) m).
  rewrite Hos, forEach_app.
  destruct (forEach_observers C os1) with (m := m)
    as (m1 & -> & Hc1 & Hs1 & Ho1 & _).
  { intros o' t' Ho' Ht'. apply Hret. apply elem_of_app. left.
    unfold tasksFor. apply list_elem_of_bind. eauto. }
  rewrite forEach_cons.
  set (m2 := {| tasks := tasks m1; observers := observers m1;
                wellDefinedData := wellDefinedData m1; heap := heap m1;
                calls := calls m1 ++ [ObserverCalled o C] |}).
  change ((record (ObserverCalled o C) ;;
           forEach (o C) tasks_schedule) m1)
    with (forEach (o C) tasks_schedule m2).
  rewrite Ho, forEach_app.
  destruct (forEach_tasks_schedule ts1) with (m := m2)
    as (m3 & -> & Hc3 & Hs3 & Ho3 & _).
  { intros t' Ht'. apply Hret. apply elem_of_app. by right. }
  rewrite forEach_cons.
  destruct (schedule t (tasks m3) (heap m3)) as [r h'] eqn:E.
  pose proof (Hthrow (tasks m3) (heap m3)) as Hr. rewrite E in Hr.
  cbn [fst] in Hr. subst r.
  rewrite (tasks_schedule_throws _ _ _ _ E).
  eexists. split; [reflexivity|]. cbn [calls tasks observers].
  split; [|split].
  - rewrite Hc3. subst m2. cbn [calls]. rewrite Hc1.
    by rewrite <- !app_assoc.
  - rewrite scheduled_app.
    + rewrite <- Hs1. cbn [fst snd].
      subst m2. cbn [tasks heap] in Hs3. by rewrite <- Hs3.
    + intros t' Ht'. apply Hret. apply elem_of_app. by left.
  - rewrite Ho3. subst m2. cbn [observers]. by rewrite Ho1.
Qed.

(** X10: an observer does not see what changed before it was registered, once
    a completion has drained it.  On a model without observers a completion
    only empties the change buffer of the data store; an observer registered
    afterwards is called with the empty set at the next completion. *)
Theorem late_observer_misses_drained_changes m o (t1 t2 : ModelTask) :
  observers m = [] →
  (∀ t, t ∈ o ∅ → ∀ p h, returns (schedule t p) h) →
  wellDefinedData m < length (stores (heap m)) →
  ∃ m1 m2,
    onTaskCompleted t1 m = (Returned tt, m1) ∧
    m1 = with_heap (drained m) m ∧
    (registerObserver o ;; onTaskCompleted t2) m1 = (Returned tt, m2) ∧
    calls m2
    = calls m ++ ObserverCalled o ∅ :: (ScheduleCalled <$> o ∅).
Proof.
  intros Hos Hret Hd.
  exists (with_heap (drained m) m).
  assert (Hrun1 : onTaskCompleted t1 m
                  = (Returned tt, with_heap (drained m) m)).
  { change (onTaskCompleted t1 m)
      with (forEach (observers m)
              (λ element,
                 record (ObserverCalled element
                           (changeBuffer
                              (stores (heap m) !!! wellDefinedData m))) ;;
                 forEach
                   (element
                      (changeBuffer (stores (heap m) !!! wellDefinedData m)))
                   tasks_schedule)
              (with_heap (drained m) m)).
    by rewrite Hos. }
  set (m1 := with_heap (drained m) m) in *.
  set (m1' := with_observers (observers m1 ++ [o]) m1).
  assert (HC : changeBuffer (stores (heap m1') !!! wellDefinedData m1') = ∅).
  { subst m1' m1. cbn [with_observers with_heap heap wellDefinedData drained
      with_stores stores].
    by rewrite list_lookup_total_insert_eq. }
  destruct (forEach_observers ∅ [o]) with (m := with_heap (drained m1') m1')
    as (m2 & Hrun2 & Hc2 & _).
  { intros o' t Ho' Ht. apply list_elem_of_singleton in Ho' as ->.
    by apply Hret. }
  exists m2. split; [done|]. split; [done|]. split.
  - unfold mbind, M_bind.
    change (registerObserver o m1) with (Returned tt, m1').
    cbn match.
    change (onTaskCompleted t2 m1')
      with (forEach (observers m1')
              (λ element,
                 record (ObserverCalled element
                           (changeBuffer
                              (stores (heap m1') !!! wellDefinedData m1'))) ;;
                 forEach
                   (element
                      (changeBuffer
                         (stores (heap m1') !!! wellDefinedData m1')))
                   tasks_schedule)
              (with_heap (drained m1') m1')).
    rewrite HC.
    assert (observers m1' = [o]) as ->
      by (subst m1' m1; cbn [with_observers with_heap observers];
          by rewrite Hos).
    exact Hrun2.
  - rewrite Hc2. subst m1' m1. cbn [with_observers with_heap calls callsFor].
    unfold callsFor. cbn [mbind list_bind]. by rewrite app_nil_r.
Qed.

End model_exceptions.

Section persistence_properties.

Context (new_Component : Obj).
Context (setPart : string → any → Obj → Obj).
Context (getPart : string → Obj → any).

(** X11: running a [SaveTask] never changes the data it runs on.  It writes
    one file, for its own module and through its own [IOFacilitator], when
    the data has a component for the type of the module, and none when that
    component is [undefined] or [null]. *)
Theorem SaveTask_only_reads (io : IOFacilitator) (module : FileModule)
    (d : ModelData) :
  (execute (SaveTask getPart io module) d).1 = d ∧
  length (execute (SaveTask getPart io module) d).2 ≤ 1 ∧
  (∀ w, w ∈ (execute (SaveTask getPart io module) d).2 →
        written_by w = io ∧ written_module w = module) ∧
  ((execute (SaveTask getPart io module) d).2 = [] ↔
   getComponent d (getType module) = undefined ∨
   getComponent d (getType module) = null).
Proof.
  cbn [SaveTask ProcessorTask execute].
  destruct (getComponent d (getType module)) as [| |c]; cbn [fst snd length].
  - split; [done|]. split; [lia|].
    split; [intros w Hw; by apply elem_of_nil in Hw|].
    split; [by left | done].
  - split; [done|]. split; [lia|].
    split; [intros w Hw; by apply elem_of_nil in Hw|].
    split; [by right | done].
  - split; [done|]. split; [lia|]. split.
    + intros w Hw. by apply list_elem_of_singleton in Hw as ->.
    + split; [done | by intros [|]].
Qed.

(** X12: running a [LoadTask] writes no file and calls [setComponent] for
    the type of its module: the data then holds, for that type, the
    component that was there, or a new one when there was [undefined] or
    [null], with the result set as the part named by the file; and the
    change buffer gains that type and nothing else. *)
Theorem LoadTask_sets_one_component (result : any) (module : FileModule)
    (d : ModelData) :
  let d' := (execute (LoadTask new_Component setPart result module) d).1 in
  let before :=
    match getComponent d (getType module) with
    | object component => component
    | null | undefined => new_Component
    end in
  (execute (LoadTask new_Component setPart result module) d).2 = [] ∧
  getComponent d' (getType module)
    = object (setPart (getFilename module) result before) ∧
  changeBuffer d' = {[getType module]} ∪ changeBuffer d.
Proof.
  cbn [LoadTask ProcessorTask execute fst snd]. split; [done|]. split.
  - rewrite getComponent_setComponent. by rewrite decide_True.
  - reflexivity.
Qed.

Lemma LoadTask_sets_one_component_aux (result : any) (module : FileModule)
    (d : ModelData) :
  ∃ c,
    getComponent (execute (LoadTask new_Component setPart result module) d).1
      (getType module)
    = object (setPart (getFilename module) result c).
Proof.
  eexists. cbn [LoadTask ProcessorTask execute fst].
  rewrite getComponent_setComponent. by rewrite decide_True.
Qed.

(** X13: what a [LoadTask] puts in the model, a [SaveTask] for the same module
    writes out: run on the data left by the load task, the save task writes
    one file, whose content is the loaded result, provided the component
    gives back the part that was set in it. *)
Theorem SaveTask_after_LoadTask (result : any) (io : IOFacilitator)
    (module : FileModule) (d : ModelData) :
  (∀ c, getPart (getFilename module)
          (setPart (getFilename module) result c) = result) →
  (execute (SaveTask getPart io module)
     (execute (LoadTask new_Component setPart result module) d).1).2
  = [ {| written_by := io; written_module := module;
         written_data := result |} ].
Proof.
  intros Hpart.
  destruct (LoadTask_sets_one_component_aux result module d) as [c Hc].
  cbn [SaveTask ProcessorTask execute]. rewrite Hc. cbn [snd].
  by rewrite Hpart.
Qed.

End persistence_properties.

Section IOFacilitator_properties.

Context (getLabel : Obj → ModelComponent).
Context (serialize : Obj → any → string → Outcome any).
Context (blobType : Obj → string).

Lemma modems_registered (ps : list Obj) (io : IOFacilitator)
    (c : ModelComponent) :
  modems (foldl (λ io p, registerModem getLabel p io) io ps) !! c
  = match last (filter (λ p, getLabel p = c) ps) with
    | Some p => Some p
    | None => modems io !! c
    end.
Proof.
  revert io. induction ps as [|p ps IH]; intros io; [done|].
  cbn [foldl]. rewrite IH. rewrite filter_cons.
  unfold registerModem at 1. cbn [modems]. rewrite lookup_insert.
  destruct (decide (getLabel p = c)) as [Hp|Hp].
  - generalize (filter (λ p0, getLabel p0 = c) ps). intros [|q qs]; [done|].
    rewrite (last_cons p). by destruct (last (q :: qs)).
  - done.
Qed.

(** X14: [writeToFile] serializes with the parser registered last under the
    type of the module and saves one file, named as the module says; what
    [serialize] throws is thrown on and no file is saved; and when no parser
    was registered under that type it throws a [TypeError] and saves no
    file. *)
Theorem writeToFile_uses_last_registered (ps : list Obj)
    (module : FileModule) (data : any) (saved : list SavedFile) :
  writeToFile serialize blobType
    (foldl (λ io p, registerModem getLabel p io) new_IOFacilitator ps)
    module data saved
  = match last (filter (λ p, getLabel p = getType module) ps) with
    | None =>
        (Thrown (TypeError "Cannot read property 'serialize' of undefined"),
         saved)
    | Some parser =>
        match serialize parser data (blobType (getFile module)) with
        | Thrown e => (Thrown e, saved)
        | Returned content =>
            (Returned tt,
             saved ++ [ {| saved_name := getFilename module;
                           saved_content := content |} ])
        end
    end.
Proof.
  unfold writeToFile. rewrite modems_registered.
  destruct (last _) as [parser|]; [|done].
  by destruct (serialize parser data _).
Qed.

End IOFacilitator_properties.

End entities.

(** * The statements at concrete inputs

    Components are numbers and component values are trivial. *)

Lemma addDependency_records_witness :
  1 < length (instructions (example_heap (Obj:=unit) false 7)) ∧
  0 < length (instructions (example_heap (Obj:=unit) false 7)) ∧
  ∃ h', addDependency 1 0 8 (example_heap (Obj:=unit) false 7)
        = (Returned tt, h') ∧
    Dictionary.getValue (toString (example_heap (Obj:=unit) false 7))
      (dependencies (instructions h' !!! 1)) 0 = Some {[8; 7]} ∧
    CSet.contains (toString (example_heap (Obj:=unit) false 7))
      (invertedDependencies (instructions h' !!! 0)) 1 = true.
Proof.
  assert (H1 : 1 < length (instructions (example_heap (Obj:=unit) false 7)))
    by (vm_compute; lia).
  assert (H0 : 0 < length (instructions (example_heap (Obj:=unit) false 7)))
    by (vm_compute; lia).
  split; [exact H1|]. split; [exact H0|].
  destruct (addDependency_records (example_heap (Obj:=unit) false 7) 1 0 8
              H1 H0) as (h' & Hrun & _ & _ & Hget & Hin & _).
  exists h'. split; [exact Hrun|]. split; [|exact Hin].
  rewrite Hget. f_equal.
Defined.

Lemma transferOutput_copies_and_keeps_dependency_witness :
  data (instructions (example_heap (Obj:=unit) false 7) !!! 1)
    < length (stores (example_heap (Obj:=unit) false 7)) ∧
  Dictionary.getValue (toString (example_heap (Obj:=unit) false 7))
    (dependencies (instructions (example_heap (Obj:=unit) false 7) !!! 1)) 0
    = Some {[7]} ∧
  ∃ h', transferOutput 0 1 (example_heap (Obj:=unit) false 7)
        = (Returned tt, h') ∧
    isEligibleForExecution 1 h' = (Returned false, h').
Proof.
  assert (Hd : data (instructions (example_heap (Obj:=unit) false 7) !!! 1)
               < length (stores (example_heap (Obj:=unit) false 7)))
    by (vm_compute; lia).
  assert (Hcs : Dictionary.getValue
                  (toString (example_heap (Obj:=unit) false 7))
                  (dependencies
                     (instructions (example_heap (Obj:=unit) false 7) !!! 1))
                  0 = Some {[7]})
    by (vm_compute; reflexivity).
  split; [exact Hd|]. split; [exact Hcs|].
  destruct (transferOutput_copies_and_keeps_dependency
              (example_heap (Obj:=unit) false 7) 0 1 {[7]} Hd Hcs)
    as (h' & Hrun & _ & _ & _ & Hel).
  exists h'. split; [exact Hrun | exact Hel].
Defined.

Lemma transferOutput_changes_target_snapshot_only_witness :
  data (instructions (example_heap (Obj:=unit) false 7) !!! 0)
    ≠ data (instructions (example_heap (Obj:=unit) false 7) !!! 1) ∧
  Dictionary.getValue (toString (example_heap (Obj:=unit) false 7))
    (dependencies (instructions (example_heap (Obj:=unit) false 7) !!! 1)) 0
    = Some {[7]} ∧
  ∃ h', transferOutput 0 1 (example_heap (Obj:=unit) false 7)
        = (Returned tt, h') ∧
    instructions h' = instructions (example_heap (Obj:=unit) false 7) ∧
    stores h' !!! 0 = stores (example_heap (Obj:=unit) false 7) !!! 0.
Proof.
  assert (Hne : data (instructions (example_heap (Obj:=unit) false 7) !!! 0)
                ≠ data (instructions (example_heap (Obj:=unit) false 7) !!! 1))
    by (vm_compute; lia).
  assert (Hcs : Dictionary.getValue
                  (toString (example_heap (Obj:=unit) false 7))
                  (dependencies
                     (instructions (example_heap (Obj:=unit) false 7) !!! 1))
                  0 = Some {[7]})
    by (vm_compute; reflexivity).
  split; [exact Hne|]. split; [exact Hcs|].
  destruct (transferOutput_changes_target_snapshot_only
              (example_heap (Obj:=unit) false 7) 0 1 {[7]} Hne Hcs)
    as (h' & Hrun & Hinst & _ & _ & _ & _ & Hp & _).
  exists h'. split; [exact Hrun|]. split; [exact Hinst | exact Hp].
Defined.

(** C1, as stated, fails: after [P.transferOutput(T)] the dependency mapping
    of [T] still has its entry for [P]. *)
Lemma transferOutput_keeps_the_entry :
  ¬ transferOutput_removes_dependency (ModelComponent:=nat) (Obj:=unit).
Proof.
  intros Hc.
  destruct (Hc (example_heap false 7) 0 1 {[7]})
    as (h' & Hrun & _ & Hnone).
  - vm_compute; lia.
  - vm_compute; lia.
  - vm_compute; lia.
  - vm_compute; reflexivity.
  - apply transferOutput_instructions in Hrun.
    unfold toString in Hnone. rewrite Hrun in Hnone.
    vm_compute in Hnone. discriminate Hnone.
Qed.

(** C4, as stated, fails: of two producers whose tasks have the same index,
    the consumer declared a dependency on the first only, and no entry of
    its dependency mapping has the second as its key; the transfer from the
    second returns normally all the same. *)
Lemma transferOutput_returns_for_undeclared_producer :
  ¬ transferOutput_throws_unless_declared (ModelComponent:=nat) (Obj:=unit).
Proof.
  intros Hc.
  destruct (Hc (performAll [AddDependency 2 0 7] twin_producers_heap) 1 2)
    as [Hthrows _].
  - vm_compute; lia.
  - vm_compute; lia.
  - destruct Hthrows as [e He].
    + assert (Hkeys : Dictionary.keys
                (dependencies
                   (instructions
                      (performAll (ModelComponent:=nat) (Obj:=unit)
                         [AddDependency 2 0 7] twin_producers_heap) !!! 2))
              = [0]) by (vm_compute; reflexivity).
      rewrite Hkeys. intros Hin%list_elem_of_singleton. discriminate Hin.
    + vm_compute in He. discriminate He.
Qed.

(** C5, as stated, fails: of two consumers whose tasks have the same index,
    the first depends on the producer; when the second declares its
    dependency, the inverted dependencies of the producer are left with the
    first consumer as their one element, and the second is not stored. *)
Lemma addDependency_does_not_store_a_twin :
  ¬ addDependency_records_the_instructions (ModelComponent:=nat) (Obj:=unit).
Proof.
  intros Hc.
  destruct (Hc (twin_consumers_heap 7) 2 0 7)
    as (h' & Hrun & _ & _ & Hin).
  - vm_compute; lia.
  - vm_compute; lia.
  - assert (Hkeys : Dictionary.keys
              (invertedDependencies
                 (instructions
                    (addDependency (ModelComponent:=nat) (Obj:=unit)
                       2 0 7 (twin_consumers_heap 7)).2 !!! 0))
            = [1]) by (vm_compute; reflexivity).
    rewrite Hrun in Hkeys. cbn [snd] in Hkeys. rewrite Hkeys in Hin.
    apply list_elem_of_singleton in Hin. discriminate Hin.
Qed.

(** A task that writes a component and then a task that reads it: the
    second instruction depends on the first. *)
Lemma schedule_records_a_dependency :
  dependsOn
    (scheduleAll (ModelComponent:=nat) (Obj:=unit)
       [ idle (Some (new_ModelTaskMetadata (inr []) (inr [7]) None)) (Some 1%Z);
         idle (Some (new_ModelTaskMetadata (inr [7]) (inr []) None)) (Some 2%Z) ]
       (new_OutOfOrderProcessor 0)
       {| instructions := []; stores := [new_ModelData] |}).2
    1 0.
Proof.
  split.
  - vm_compute. lia.
  - apply elem_of_keys. exists "Instruction 1", {[7]}.
    vm_compute. reflexivity.
Qed.

Lemma notifyObservers_in_registration_order_witness :
  (∀ o t,
     o ∈ observers
           (forEach [example_observer 7; example_observer 8]
              registerObserver (example_model (Obj:=unit) 7)).2 →
     t ∈ o {[7]} →
     ∀ p h, returns (schedule (Processor:=OutOfOrderProcessor) t p) h) ∧
  ∃ m2,
    onTaskCompleted (idle None None)
      (forEach [example_observer 7; example_observer 8]
         registerObserver (example_model (Obj:=unit) 7)).2
    = (Returned tt, m2) ∧
    calls m2
    = [ ObserverCalled (example_observer 7) {[7]};
        ScheduleCalled
          (OpaqueTask (λ d, (d, []))
             (new_ModelTaskMetadata (inr [7]) (inr [7]) None));
        ObserverCalled (example_observer 8) {[7]} ].
Proof.
  assert (Hret : ∀ o t,
     o ∈ observers
           (forEach [example_observer 7; example_observer 8]
              registerObserver (example_model (Obj:=unit) 7)).2 →
     t ∈ o {[7]} →
     ∀ p h, returns (schedule (Processor:=OutOfOrderProcessor) t p) h).
  { intros o t Ho Ht p h. simpl in Ho.
    apply elem_of_cons in Ho as [->|Ho];
      [|apply elem_of_cons in Ho as [->|Ho]; [|by apply elem_of_nil in Ho]].
    - vm_compute in Ht. apply elem_of_cons in Ht as [->|Ht];
        [|by apply elem_of_nil in Ht].
      by eapply schedule_returns.
    - vm_compute in Ht. by apply elem_of_nil in Ht. }
  split; [exact Hret|].
  destruct (notifyObservers_in_registration_order
              (example_model (Obj:=unit) 7)
              [example_observer 7; example_observer 8] (idle None None)
              Hret)
    as (_ & m2 & Hrun & Hcalls & _).
  exists m2. split; [exact Hrun|]. rewrite Hcalls. reflexivity.
Defined.

(** The producer of [example_heap] does not depend on the consumer:
    transferring the output of the consumer to it throws, and the transfer
    in the other direction returns. *)
Lemma transferOutput_at_example_heap :
  (transferOutput 1 0 (example_heap (Obj:=unit) false 7)).1
  = Thrown (Error "Cannot transfer components to independent instruction.") ∧
  (transferOutput 0 1 (example_heap (Obj:=unit) false 7)).1 = Returned tt.
Proof. split; vm_compute; reflexivity. Qed.

(** * RequestModule.processRepos *)

Lemma split_nonempty sep s : RequestModule.split sep s ≠ [].
Proof.
  destruct s as [|c s]; simpl; [done|].
  case_decide; [done|]. by destruct (RequestModule.split sep s).
Qed.

Lemma split_without_separator sep s :
  RequestModule.occurs sep s = false → RequestModule.split sep s = [s].
Proof.
  induction s as [|c s IH]; simpl; [done|].
  case_decide; [done|]. intros Hs. by rewrite IH.
Qed.

Lemma split_at_first_separator sep a b :
  RequestModule.occurs sep a = false →
  RequestModule.split sep (a +:+ String sep b)
  = a :: RequestModule.split sep b.
Proof.
  induction a as [|c a IH]; simpl.
  - intros _. by rewrite decide_True.
  - case_decide; [done|]. intros Ha. by rewrite IH.
Qed.

Lemma split_pieces_without_separator sep s :
  Forall (λ piece, RequestModule.occurs sep piece = false)
    (RequestModule.split sep s).
Proof.
  induction s as [|c s IH]; simpl.
  - by repeat constructor.
  - case_decide as E.
    + by constructor.
    + destruct (RequestModule.split sep s) as [|piece pieces];
        [repeat constructor; simpl; by rewrite decide_False|].
      inversion_clear IH as [|? ? Hpiece Hpieces].
      constructor; [|done]. simpl. by rewrite decide_False.
Qed.

Lemma split_second_None sep s :
  RequestModule.split sep s !! 1 = None ↔ RequestModule.occurs sep s = false.
Proof.
  induction s as [|c s IH]; simpl; [done|].
  case_decide as E.
  - pose proof (split_nonempty sep s).
    destruct (RequestModule.split sep s) as [|piece pieces]; [done|].
    by split.
  - rewrite <- IH. pose proof (split_nonempty sep s).
    by destruct (RequestModule.split sep s).
Qed.

Lemma processRepos_fold (result : list RequestModule.DropdownOption)
    (repoArray : list string) :
  foldl
    (λ result repo,
       result ++ [ {| RequestModule.text := RequestModule.split "/"%char repo !! 1;
                      RequestModule.value := RequestModule.split "/"%char repo !! 1 |} ])
    result repoArray
  = result ++
    ((λ repo, {| RequestModule.text := RequestModule.split "/"%char repo !! 1;
                 RequestModule.value := RequestModule.split "/"%char repo !! 1 |})
       <$> repoArray).
Proof.
  revert result. induction repoArray as [|repo l IH]; intros result; simpl.
  - by rewrite app_nil_r.
  - by rewrite IH, <- app_assoc.
Qed.

(** X15: [processRepos] returns one entry per repository, in the order of the
    array; the entry of a repository depends on that repository alone, and
    its text and its value are the same. *)
Theorem processRepos_one_entry_per_repository (repoArray : list string) :
  length (RequestModule.processRepos repoArray) = length repoArray ∧
  (∀ l1 l2, RequestModule.processRepos (l1 ++ l2)
            = RequestModule.processRepos l1 ++ RequestModule.processRepos l2) ∧
  ∀ item, item ∈ RequestModule.processRepos repoArray →
          RequestModule.text item = RequestModule.value item.
Proof.
  unfold RequestModule.processRepos. split; [|split].
  - rewrite processRepos_fold. simpl. by rewrite length_fmap.
  - intros l1 l2. rewrite !processRepos_fold. simpl. by rewrite fmap_app.
  - intros item. rewrite processRepos_fold. simpl.
    intros (repo & -> & _)%list_elem_of_fmap. done.
Qed.

(** X16: for repositories written [owner/name], [processRepos] returns the
    names: when neither the owner nor the name contains a slash, the text
    and the value of the entry are the name.  What follows a second slash
    is dropped. *)
Theorem processRepos_returns_the_names (repos : list (string * string))
    (owner name rest : string) :
  Forall
    (λ repo, RequestModule.occurs "/"%char repo.1 = false ∧
             RequestModule.occurs "/"%char repo.2 = false) repos →
  RequestModule.occurs "/"%char owner = false →
  RequestModule.occurs "/"%char name = false →
  RequestModule.processRepos ((λ repo, repo.1 +:+ "/" +:+ repo.2) <$> repos)
  = (λ repo, {| RequestModule.text := Some repo.2;
                RequestModule.value := Some repo.2 |}) <$> repos ∧
  RequestModule.processRepos [owner +:+ "/" +:+ name +:+ "/" +:+ rest]
  = [ {| RequestModule.text := Some name;
         RequestModule.value := Some name |} ].
Proof.
  intros Hrepos Howner Hname. unfold RequestModule.processRepos.
  rewrite !processRepos_fold. simpl. split.
  - induction Hrepos as [|[o n] repos [Ho Hn] _ IH]; [done|].
    cbn [fmap list_fmap fst snd] in *. rewrite IH. f_equal.
    change (o +:+ "/" +:+ n) with (o +:+ String "/"%char n).
    rewrite split_at_first_separator by done.
    by rewrite split_without_separator.
  - change (owner +:+ "/" +:+ name +:+ "/" +:+ rest)
      with (owner +:+ String "/"%char (name +:+ String "/"%char rest)).
    rewrite split_at_first_separator by done.
    by rewrite split_at_first_separator.
Qed.

(** X17: the text of an entry is [undefined] exactly when the repository has
    no slash in it, and a text never contains a slash. *)
Theorem processRepos_text (repoArray : list string) (i : nat)
    (repo : string) :
  repoArray !! i = Some repo →
  ∃ item, RequestModule.processRepos repoArray !! i = Some item ∧
    (RequestModule.text item = None ↔ RequestModule.occurs "/"%char repo = false) ∧
    ∀ name, RequestModule.text item = Some name →
            RequestModule.occurs "/"%char name = false.
Proof.
  intros Hrepo. unfold RequestModule.processRepos.
  rewrite processRepos_fold. simpl. rewrite list_lookup_fmap, Hrepo.
  eexists. split; [done|]. simpl. split; [apply split_second_None|].
  intros name Hname.
  pose proof (split_pieces_without_separator "/"%char repo) as Hall.
  rewrite Forall_lookup in Hall. by apply (Hall 1).
Qed.

(** * The further statements at concrete inputs *)

Lemma addDependency_commute_witness :
  (0 = 0 ∨ toString (example_heap (Obj:=unit) false 7) 0
           ≠ toString (example_heap (Obj:=unit) false 7) 0) ∧
  (addDependency 1 0 8 ;; addDependency 1 0 9)
    (example_heap (Obj:=unit) false 7)
  = (addDependency 1 0 9 ;; addDependency 1 0 8)
      (example_heap (Obj:=unit) false 7).
Proof.
  split; [by left|].
  apply (addDependency_commute (example_heap (Obj:=unit) false 7) 1 0 0 8 9).
  by left.
Defined.

Lemma same_index_producers_are_conflated_witness :
  2 < length (instructions (twin_producers_heap (ModelComponent:=nat)
                              (Obj:=unit))) ∧
  index (task (instructions (twin_producers_heap (ModelComponent:=nat)
                               (Obj:=unit)) !!! 0))
  = index (task (instructions (twin_producers_heap (ModelComponent:=nat)
                                 (Obj:=unit)) !!! 1)) ∧
  ∃ h', addDependency 2 0 7 (twin_producers_heap (Obj:=unit))
        = (Returned tt, h') ∧
    (transferOutput 1 2 h').1 = Returned tt.
Proof.
  assert (Hlt : 2 < length (instructions
                              (twin_producers_heap (ModelComponent:=nat)
                                 (Obj:=unit))))
    by (vm_compute; lia).
  assert (Hidx :
    index (task (instructions (twin_producers_heap (ModelComponent:=nat)
                                 (Obj:=unit)) !!! 0))
    = index (task (instructions (twin_producers_heap (ModelComponent:=nat)
                                   (Obj:=unit)) !!! 1)))
    by reflexivity.
  split; [exact Hlt|]. split; [exact Hidx|].
  destruct (same_index_producers_are_conflated
              (twin_producers_heap (Obj:=unit)) 2 0 1 7 Hlt Hidx)
    as (h' & cs & Hrun & _ & _ & Htransfer).
  exists h'. split; [exact Hrun | exact Htransfer].
Defined.

Lemma dependencies_are_never_removed_witness :
  0 < length (instructions (example_heap (Obj:=unit) false 7)) ∧
  Dictionary.getValue (toString (example_heap (Obj:=unit) false 7))
    (dependencies (instructions (example_heap (Obj:=unit) false 7) !!! 1)) 0
    = Some {[7]} ∧
  (isEligibleForExecution 1
     (performAll [TransferOutput 0 1; AddDependency 1 0 8]
        (example_heap (Obj:=unit) false 7))).1 = Returned false.
Proof.
  assert (HP : 0 < length (instructions (example_heap (Obj:=unit) false 7)))
    by (vm_compute; lia).
  assert (Hcs : Dictionary.getValue
                  (toString (example_heap (Obj:=unit) false 7))
                  (dependencies
                     (instructions (example_heap (Obj:=unit) false 7) !!! 1))
                  0 = Some {[7]})
    by (vm_compute; reflexivity).
  split; [exact HP|]. split; [exact Hcs|].
  destruct (dependencies_are_never_removed
              [TransferOutput 0 1; AddDependency 1 0 8]
              (example_heap (Obj:=unit) false 7) 1 0 {[7]} HP Hcs)
    as (cs' & _ & _ & Hel).
  exact Hel.
Defined.

Lemma dependencies_are_mirrored_witness :
  well_addressed (ModelComponent:=nat) (Obj:=unit) 0
    [ NewTaskInstruction (idle None (Some 1%Z)) 0;
      NewTaskInstruction (idle None (Some 2%Z)) 0;
      AddDependency 1 0 7; TransferOutput 0 1 ] ∧
  mirrored (ModelComponent:=nat) (Obj:=unit)
    (performAll
       [ NewTaskInstruction (idle None (Some 1%Z)) 0;
         NewTaskInstruction (idle None (Some 2%Z)) 0;
         AddDependency 1 0 7; TransferOutput 0 1 ]
       {| instructions := []; stores := [new_ModelData] |}).
Proof.
  assert (Hw : well_addressed (ModelComponent:=nat) (Obj:=unit) 0
                 [ NewTaskInstruction (idle None (Some 1%Z)) 0;
                   NewTaskInstruction (idle None (Some 2%Z)) 0;
                   AddDependency 1 0 7; TransferOutput 0 1 ])
    by (simpl; lia).
  split; [exact Hw|].
  exact (dependencies_are_mirrored _ [new_ModelData] Hw).
Defined.

Lemma instruction_identity_is_stable_witness :
  0 < length (instructions (example_heap (Obj:=unit) false 7)) ∧
  toString (performAll [AddDependency 1 0 8; TransferOutput 0 1]
              (example_heap (Obj:=unit) false 7)) 0
  = toString (example_heap (Obj:=unit) false 7) 0.
Proof.
  assert (Hi : 0 < length (instructions (example_heap (Obj:=unit) false 7)))
    by (vm_compute; lia).
  split; [exact Hi|].
  destruct (instruction_identity_is_stable
              [AddDependency 1 0 8; TransferOutput 0 1]
              (example_heap (Obj:=unit) false 7) 0 Hi)
    as (_ & _ & Hkey & _).
  exact Hkey.
Defined.

Lemma notifyObservers_stops_at_exception_witness :
  observers (example_model_with_observers (Obj:=unit) 7)
  = [example_observer 7] ++ careless_observer :: [example_observer 7] ∧
  careless_observer (ModelComponent:=nat) (Obj:=unit) {[7]}
  = [] ++ idle None None :: [] ∧
  (∀ t', t' ∈ tasksFor {[7]} [example_observer (Obj:=unit) 7] ++ [] →
         ∀ p h, returns (schedule (Processor:=OutOfOrderProcessor) t' p) h) ∧
  (∀ p h, (schedule (Processor:=OutOfOrderProcessor)
             (idle (ModelComponent:=nat) (Obj:=unit) None None) p h).1
          = Thrown (TypeError "Cannot read property of null")) ∧
  ∃ m', notifyObservers {[7]} (example_model_with_observers (Obj:=unit) 7)
        = (Thrown (TypeError "Cannot read property of null"), m') ∧
    calls m'
    = [ ObserverCalled (example_observer 7) {[7]};
        ScheduleCalled
          (OpaqueTask (λ d, (d, []))
             (new_ModelTaskMetadata (inr [7]) (inr [7]) None));
        ObserverCalled careless_observer {[7]};
        ScheduleCalled (idle None None) ].
Proof.
  assert (Hos : observers (example_model_with_observers (Obj:=unit) 7)
                = [example_observer 7] ++ careless_observer
                  :: [example_observer 7]) by reflexivity.
  assert (Ho : careless_observer (ModelComponent:=nat) (Obj:=unit) {[7]}
               = [] ++ idle None None :: []) by reflexivity.
  assert (Hret : ∀ t',
            t' ∈ tasksFor {[7]} [example_observer (Obj:=unit) 7] ++ [] →
            ∀ p h, returns (schedule (Processor:=OutOfOrderProcessor) t' p) h).
  { intros t' Ht' p h. vm_compute in Ht'.
    apply elem_of_cons in Ht' as [->|Ht']; [|by apply elem_of_nil in Ht'].
    by eapply schedule_returns. }
  assert (Hthrow : ∀ p h,
            (schedule (Processor:=OutOfOrderProcessor)
               (idle (ModelComponent:=nat) (Obj:=unit) None None) p h).1
            = Thrown (TypeError "Cannot read property of null")).
  { intros p h. by apply schedule_throws_without_metadata. }
  split; [exact Hos|]. split; [exact Ho|]. split; [exact Hret|].
  split; [exact Hthrow|].
  destruct (notifyObservers_stops_at_exception {[7]}
              (example_model_with_observers (Obj:=unit) 7)
              [example_observer 7] careless_observer [example_observer 7]
              [] (idle None None) [] _ Hos Ho Hret Hthrow)
    as (m' & Hrun & Hcalls & _).
  exists m'. split; [exact Hrun|]. rewrite Hcalls. reflexivity.
Defined.

Lemma late_observer_misses_drained_changes_witness :
  observers (example_model (Obj:=unit) 7) = [] ∧
  (∀ t, t ∈ example_observer (Obj:=unit) 7 ∅ →
        ∀ p h, returns (schedule (Processor:=OutOfOrderProcessor) t p) h) ∧
  wellDefinedData (example_model (Obj:=unit) 7)
    < length (stores (heap (example_model (Obj:=unit) 7))) ∧
  ∃ m1 m2,
    onTaskCompleted (idle None None) (example_model (Obj:=unit) 7)
    = (Returned tt, m1) ∧
    (registerObserver (example_observer 7) ;;
     onTaskCompleted (idle None None)) m1 = (Returned tt, m2) ∧
    calls m2 = [ObserverCalled (example_observer 7) ∅].
Proof.
  assert (Hos : observers (example_model (Obj:=unit) 7) = []) by reflexivity.
  assert (Hret : ∀ t, t ∈ example_observer (Obj:=unit) 7 ∅ →
            ∀ p h, returns (schedule (Processor:=OutOfOrderProcessor) t p) h).
  { intros t Ht. vm_compute in Ht. by apply elem_of_nil in Ht. }
  assert (Hd : wellDefinedData (example_model (Obj:=unit) 7)
               < length (stores (heap (example_model (Obj:=unit) 7))))
    by (vm_compute; lia).
  split; [exact Hos|]. split; [exact Hret|]. split; [exact Hd|].
  destruct (late_observer_misses_drained_changes
              (example_model (Obj:=unit) 7) (example_observer 7)
              (idle None None) (idle None None) Hos Hret Hd)
    as (m1 & m2 & Hrun1 & _ & Hrun2 & Hcalls).
  exists m1, m2. split; [exact Hrun1|]. split; [exact Hrun2|].
  rewrite Hcalls. reflexivity.
Defined.

Lemma SaveTask_after_LoadTask_witness :
  (∀ c : list string,
     (λ (f : string) (c : list string),
        if decide (f ∈ c) then @null (list string) else undefined)
       "graph.ttl"
       ((λ (f : string) (_ : @any (list string)) (c : list string), f :: c)
          "graph.ttl" null c)
     = null) ∧
  (execute
     (SaveTask (ModelComponent:=nat)
        (λ (f : string) (c : list string),
           if decide (f ∈ c) then @null (list string) else undefined)
        {| modems := ∅ |}
        {| type := 7; filename := "graph.ttl"; file := [] |})
     (execute
        (LoadTask [] (λ f _ c, f :: c) null
           {| type := 7; filename := "graph.ttl"; file := [] |})
        new_ModelData).1).2
  = [ {| written_by := {| modems := ∅ |};
         written_module :=
           {| type := 7; filename := "graph.ttl"; file := [] |};
         written_data := null |} ].
Proof.
  assert (Hpart : ∀ c : list string,
     (λ (f : string) (c : list string),
        if decide (f ∈ c) then @null (list string) else undefined)
       "graph.ttl"
       ((λ (f : string) (_ : @any (list string)) (c : list string), f :: c)
          "graph.ttl" null c)
     = null).
  { intros c. cbn beta. rewrite decide_True; [done|].
    apply list_elem_of_here. }
  split; [exact Hpart|].
  exact (SaveTask_after_LoadTask (ModelComponent:=nat) []
           (λ f _ c, f :: c)
           (λ f c, if decide (f ∈ c) then null else undefined)
           null {| modems := ∅ |}
           {| type := 7; filename := "graph.ttl"; file := [] |}
           new_ModelData Hpart).
Defined.

Lemma processRepos_returns_the_names_witness :
  Forall
    (λ repo, RequestModule.occurs "/"%char repo.1 = false ∧
             RequestModule.occurs "/"%char repo.2 = false)
    [("jonathanvdc", "UnSHACLed")] ∧
  RequestModule.occurs "/"%char "owner" = false ∧
  RequestModule.occurs "/"%char "name" = false ∧
  RequestModule.processRepos ["jonathanvdc/UnSHACLed"]
  = [ {| RequestModule.text := Some "UnSHACLed";
         RequestModule.value := Some "UnSHACLed" |} ] ∧
  RequestModule.processRepos ["owner/name/tree/master"]
  = [ {| RequestModule.text := Some "name";
         RequestModule.value := Some "name" |} ].
Proof.
  assert (Hrepos : Forall
    (λ repo, RequestModule.occurs "/"%char repo.1 = false ∧
             RequestModule.occurs "/"%char repo.2 = false)
    [("jonathanvdc", "UnSHACLed")])
    by (repeat constructor).
  assert (Howner : RequestModule.occurs "/"%char "owner" = false)
    by reflexivity.
  assert (Hname : RequestModule.occurs "/"%char "name" = false)
    by reflexivity.
  split; [exact Hrepos|]. split; [exact Howner|]. split; [exact Hname|].
  exact (processRepos_returns_the_names [("jonathanvdc", "UnSHACLed")]
           "owner" "name" "tree/master" Hrepos Howner Hname).
Defined.

Lemma processRepos_text_witness :
  ["jonathanvdc/UnSHACLed"; "nope"] !! 1 = Some "nope" ∧
  ∃ item,
    RequestModule.processRepos ["jonathanvdc/UnSHACLed"; "nope"] !! 1
    = Some item ∧
    RequestModule.text item = None.
Proof.
  assert (Hrepo : ["jonathanvdc/UnSHACLed"; "nope"] !! 1 = Some "nope")
    by reflexivity.
  split; [exact Hrepo|].
  destruct (processRepos_text ["jonathanvdc/UnSHACLed"; "nope"] 1 "nope"
              Hrepo) as (item & Hitem & Hnone & _).
  exists item. split; [exact Hitem|]. by apply Hnone.
Defined.
